(** * shopifysemaphore: a shallow embedding of balance.go and semaphore.go

    The Go package regulates a pool of goroutines calling a rate-limited
    API.  [Balance] tracks the point balance, [Semaphore] bounds the number
    of running goroutines with a buffered channel and pauses admission when
    the balance reaches a threshold.

    Conventions of the embedding:
    - [int32] and [time.Duration] (an [int64] count of nanoseconds) are [Z]
      with Go's wrap-around written out ([wrap32], [wrap64]);
    - [time.Time] is an instant in nanoseconds on an unbounded time line,
      the zero [Time] being instant [0];
    - a run-time panic is the [Panic] result of [outcome];
    - goroutines started with [go] are returned as a list of [Goroutine]
      values and run later by the scheduler ([step]);
    - the buffered channel [sema] is the record [Chan]: its length, its
      capacity and the number of receivers parked on it. *)

From Stdlib Require Import ZArith Lia List Bool.
From stdpp Require Import base list.

Local Open Scope Z_scope.

(** ** Machine integers *)

Definition wrap (w x : Z) : Z := (x + 2 ^ (w - 1)) mod 2 ^ w - 2 ^ (w - 1).
Definition wrap32 (x : Z) : Z := wrap 32 x.
Definition wrap64 (x : Z) : Z := wrap 64 x.

Definition min_int32 : Z := -2147483648.
Definition max_int32 : Z := 2147483647.
Definition min_int64 : Z := -9223372036854775808.
Definition max_int64 : Z := 9223372036854775807.

Definition is_int32 (x : Z) : Prop := min_int32 <= x <= max_int32.
Definition is_int64 (x : Z) : Prop := min_int64 <= x <= max_int64.

(** ** Results of operations that may panic *)

Inductive panic : Type :=
| DivideByZero      (* runtime error: integer divide by zero *)
| MakechanSize      (* makechan: size out of range *)
| NilFunc.          (* call of a nil func value *)

Inductive outcome (A : Type) : Type :=
| Ok (a : A)
| Panic (p : panic).
Arguments Ok {A} a.
Arguments Panic {A} p.

Definition bind {A B : Type} (m : outcome A) (k : A -> outcome B) : outcome B :=
  match m with
  | Ok a => k a
  | Panic p => Panic p
  end.

Notation "'let!' x ':=' m 'in' k" := (bind m (fun x => k))
  (at level 10, x pattern, m at level 100, k at level 200).

(** Go's [/] on [int32]: truncated towards zero, panics on a zero divisor,
    and wraps on [min_int32 / -1]. *)
Definition div32 (x y : Z) : outcome Z :=
  if y =? 0 then Panic DivideByZero else Ok (wrap32 (Z.quot x y)).

Definition sub32 (x y : Z) : Z := wrap32 (x - y).
Definition add64 (x y : Z) : Z := wrap64 (x + y).
Definition mul64 (x y : Z) : Z := wrap64 (x * y).

(** ** package time *)

Definition Duration : Type := Z.
Definition Time : Type := Z.

Definition Millisecond : Duration := 1000000.
Definition Second : Duration := 1000000000.

Definition zeroTime : Time := 0.
Definition Time_Add (t : Time) (d : Duration) : Time := t + d.
Definition Time_Before (t u : Time) : bool := t <? u.

(** ** balance.go *)

(** [ErrPts] is a package variable that nothing in the package assigns. *)
Definition ErrPts : Z := -1.

Record Balance : Type := mkBalance {
  Remaining : Z;
  Threshold : Z;
  Limit : Z;
  RefillRate : Z
}.

Definition Store (points : Z) (b : Balance) : Balance :=
  {| Remaining := points;
     Threshold := Threshold b;
     Limit := Limit b;
     RefillRate := RefillRate b |}.

Definition Update (points : Z) (b : Balance) : Balance :=
  if points >? ErrPts then Store points b else b.

Definition NewBalance (thld max rr : Z) : Balance :=
  Update max {| Remaining := 0; Threshold := thld; Limit := max; RefillRate := rr |}.

Definition RefillDuration (b : Balance) : outcome Duration :=
  let! q := div32 (sub32 (Limit b) (Remaining b)) (RefillRate b) in
  Ok (mul64 q Second).

Definition AtThreshold (b : Balance) : bool := Remaining b <=? Threshold b.

(** The [newBalance] helper of the balance tests. *)
Definition newBalance : Balance := NewBalance 100 1000 100.

(** ** package context *)

Inductive error : Type := Canceled | DeadlineExceeded.

(** A context is what [ctx.Err()] returns: [None] until [ctx.Done()] is
    closed, the cancellation error afterwards. *)
Definition Context : Type := option error.

Definition Background : Context := None.

(** ** The channel [sema chan struct{}] *)

Record Chan : Type := mkChan {
  len : nat;      (* elements in the buffer *)
  cap : nat;      (* capacity given to make *)
  recvq : nat     (* receivers parked on the empty channel *)
}.

Definition make_chan (n : nat) : Chan := {| len := 0; cap := n; recvq := 0 |}.

(** A send can proceed when a receiver is parked or the buffer has room. *)
Definition can_send (c : Chan) : bool :=
  (0 <? recvq c)%nat || (len c <? cap c)%nat.

(** A send that proceeds hands the value to a parked receiver if there is
    one, and otherwise puts it in the buffer. *)
Definition chan_send (c : Chan) : Chan :=
  if (0 <? recvq c)%nat
  then {| len := len c; cap := cap c; recvq := pred (recvq c) |}
  else {| len := S (len c); cap := cap c; recvq := recvq c |}.

(** A receive takes an element of the buffer, or parks the receiver. *)
Definition chan_recv (c : Chan) : Chan :=
  if (0 <? len c)%nat
  then {| len := pred (len c); cap := cap c; recvq := recvq c |}
  else {| len := len c; cap := cap c; recvq := S (recvq c) |}.

(** The case a [select] with a [ctx.Done()] receive, a send and a
    [default] runs.  When both communications can proceed Go picks one of
    them pseudo-randomly: [pick] is that choice. *)
Inductive Pick : Type := PickDone | PickSend.

Inductive selected : Type :=
| SelDone (e : error)
| SelSend
| SelDefault.

Definition select (pick : Pick) (ctx : Context) (c : Chan) : selected :=
  match ctx, can_send c with
  | Some e, true => match pick with PickDone => SelDone e | PickSend => SelSend end
  | Some e, false => SelDone e
  | None, true => SelSend
  | None, false => SelDefault
  end.

(** ** semaphore.go *)

(** A call of [Aquire] in progress.  [PauseCheck] is the head of the inner
    loop that reads [sem.paused], [Select] is the [select] statement and
    [Returned err] the end of the call.  [waits] records, oldest first, what
    the call did each time it went round one of its loops: [Spin] for a
    round of the inner loop that found the pause flag set, [Sleep d] for the
    [time.Sleep(d)] of the [default] case. *)
Inductive PC : Type :=
| PauseCheck
| Select
| Returned (err : option error).

Inductive Wait : Type :=
| Spin
| Sleep (d : Duration).

Record Aquirer : Type := mkAquirer {
  ctx : Context;
  pc : PC;
  waits : list Wait
}.

Definition new_call (c : Context) : Aquirer :=
  {| ctx := c; pc := PauseCheck; waits := [] |}.

(** The invocations of the user's callbacks, oldest first. *)
Inductive Call : Type :=
| PauseCalled (pts : Z) (dur : Duration)
| ResumeCalled.

Definition DefaultAquireBuffer : Duration := 200 * Millisecond.
Definition DefaultPauseBuffer : Duration := 1 * Second.

Section Semaphore.

(** The state the user's callbacks act on. *)
Variable U : Type.

Definition PauseFn : Type := Z -> Duration -> U -> U.
Definition ResumeFn : Type := U -> U.

Record Semaphore : Type := mkSemaphore {
  balance : Balance;             (* the embedded *Balance *)
  PauseFunc : option PauseFn;    (* None is the nil func *)
  ResumeFunc : option ResumeFn;
  PauseBuffer : Duration;
  AquireBuffer : Duration;
  pausedAt : Time;
  sema : Chan;
  mu : bool;                     (* true while the mutex is locked *)
  paused : bool
}.

Definition set_balance (b : Balance) (s : Semaphore) : Semaphore :=
  mkSemaphore b (PauseFunc s) (ResumeFunc s) (PauseBuffer s) (AquireBuffer s)
    (pausedAt s) (sema s) (mu s) (paused s).
Definition set_PauseFunc (f : option PauseFn) (s : Semaphore) : Semaphore :=
  mkSemaphore (balance s) f (ResumeFunc s) (PauseBuffer s) (AquireBuffer s)
    (pausedAt s) (sema s) (mu s) (paused s).
Definition set_ResumeFunc (f : option ResumeFn) (s : Semaphore) : Semaphore :=
  mkSemaphore (balance s) (PauseFunc s) f (PauseBuffer s) (AquireBuffer s)
    (pausedAt s) (sema s) (mu s) (paused s).
Definition set_PauseBuffer (d : Duration) (s : Semaphore) : Semaphore :=
  mkSemaphore (balance s) (PauseFunc s) (ResumeFunc s) d (AquireBuffer s)
    (pausedAt s) (sema s) (mu s) (paused s).
Definition set_AquireBuffer (d : Duration) (s : Semaphore) : Semaphore :=
  mkSemaphore (balance s) (PauseFunc s) (ResumeFunc s) (PauseBuffer s) d
    (pausedAt s) (sema s) (mu s) (paused s).
Definition set_pausedAt (t : Time) (s : Semaphore) : Semaphore :=
  mkSemaphore (balance s) (PauseFunc s) (ResumeFunc s) (PauseBuffer s)
    (AquireBuffer s) t (sema s) (mu s) (paused s).
Definition set_sema (c : Chan) (s : Semaphore) : Semaphore :=
  mkSemaphore (balance s) (PauseFunc s) (ResumeFunc s) (PauseBuffer s)
    (AquireBuffer s) (pausedAt s) c (mu s) (paused s).
Definition set_mu (m : bool) (s : Semaphore) : Semaphore :=
  mkSemaphore (balance s) (PauseFunc s) (ResumeFunc s) (PauseBuffer s)
    (AquireBuffer s) (pausedAt s) (sema s) m (paused s).
Definition set_paused (p : bool) (s : Semaphore) : Semaphore :=
  mkSemaphore (balance s) (PauseFunc s) (ResumeFunc s) (PauseBuffer s)
    (AquireBuffer s) (pausedAt s) (sema s) (mu s) p.

(** *** Functional options *)

Definition SemaphoreOption : Type := Semaphore -> Semaphore.

Definition WithPauseFunc (fn : PauseFn) : SemaphoreOption :=
  fun sem => set_PauseFunc (Some fn) sem.
Definition WithResumeFunc (fn : ResumeFn) : SemaphoreOption :=
  fun sem => set_ResumeFunc (Some fn) sem.
Definition WithAquireBuffer (dur : Duration) : SemaphoreOption :=
  fun sem => set_AquireBuffer dur sem.
Definition WithPauseBuffer (dur : Duration) : SemaphoreOption :=
  fun sem => set_PauseBuffer dur sem.

(** *** NewSemaphore

    The composite literal [&Semaphore{Balance: b, sema: make(...)}] leaves
    every other field at its zero value; [make] panics on a negative
    capacity before any option runs. *)
Definition NewSemaphore (cap : Z) (b : Balance) (opts : list SemaphoreOption)
  : outcome Semaphore :=
  if cap <? 0 then Panic MakechanSize else
  let sem :=
    {| balance := b; PauseFunc := None; ResumeFunc := None;
       PauseBuffer := 0; AquireBuffer := 0; pausedAt := zeroTime;
       sema := make_chan (Z.to_nat cap); mu := false; paused := false |} in
  let sem := fold_left (fun sem opt => opt sem) opts sem in
  let sem :=
    if PauseFunc sem is None then WithPauseFunc (fun _ _ u => u) sem else sem in
  let sem :=
    if ResumeFunc sem is None then WithResumeFunc (fun u => u) sem else sem in
  let sem :=
    if AquireBuffer sem =? 0 then WithAquireBuffer DefaultAquireBuffer sem
    else sem in
  Ok sem.

(** The semaphore of the composite literal in [NewSemaphore]. *)
Definition literal (cap : Z) (b : Balance) : Semaphore :=
  {| balance := b; PauseFunc := None; ResumeFunc := None;
     PauseBuffer := 0; AquireBuffer := 0; pausedAt := zeroTime;
     sema := make_chan (Z.to_nat cap); mu := false; paused := false |}.

Definition apply_opts (opts : list SemaphoreOption) (s : Semaphore)
  : Semaphore :=
  fold_left (fun sem opt => opt sem) opts s.

(** What an option written outside the package can change: the exported
    fields. *)
Definition keeps_unexported (opt : SemaphoreOption) : Prop :=
  forall s, sema (opt s) = sema s /\ pausedAt (opt s) = pausedAt s
            /\ mu (opt s) = mu s /\ paused (opt s) = paused s.

Definition keeps_PauseBuffer (opt : SemaphoreOption) : Prop :=
  forall s, PauseBuffer (opt s) = PauseBuffer s.

Definition keeps_AquireBuffer (opt : SemaphoreOption) : Prop :=
  forall s, AquireBuffer (opt s) = AquireBuffer s.

(** *** Release *)

(** The goroutines [Release] starts with [go]: the call of the pause
    callback, with the callback and its arguments evaluated at the [go]
    statement, and the closure that sleeps [ra], unflags the pause and
    calls the resume callback. *)
Inductive Goroutine : Type :=
| GoPauseFunc (fn : PauseFn) (pts : Z) (ra : Duration)
| GoResume (ra : Duration).

(** [now1] and [now2] are the two readings of [time.Now()], in the cooldown
    test and in the assignment of [pausedAt].  The caller holds no lock on
    entry ([mu sem = false]); the result has [mu] unlocked when the receive
    from [sema] proceeded, and locked with the receiver parked when the
    channel was empty. *)
Definition Release (pts : Z) (now1 now2 : Time) (sem : Semaphore)
  : outcome (Semaphore * list Goroutine) :=
  let sem := set_mu true sem in
  let sem := set_balance (Update pts (balance sem)) sem in
  let! (sem, gs) :=
    (if AtThreshold (balance sem) then
       let! rd := RefillDuration (balance sem) in
       let ra := add64 rd (PauseBuffer sem) in
       if Time_Before (Time_Add (pausedAt sem) ra) now1 then
         let sem := set_paused true sem in
         let sem := set_pausedAt now2 sem in
         match PauseFunc sem with
         | Some fn => Ok (sem, [GoPauseFunc fn pts ra; GoResume ra])
         | None => Panic NilFunc
         end
       else Ok (sem, [])
     else Ok (sem, [])) in
  let parks := (len (sema sem) =? 0)%nat in
  let sem := set_sema (chan_recv (sema sem)) sem in
  Ok (if parks then sem else set_mu false sem, gs).

(** The duration [ra] that [Release pts] computes when the balance is at
    the threshold, and the instant [sem.pausedAt.Add(ra)] it compares with
    the clock. *)
Definition pauseDuration (pts : Z) (sem : Semaphore) : outcome Duration :=
  let! rd := RefillDuration (Update pts (balance sem)) in
  Ok (add64 rd (PauseBuffer sem)).

Definition cooldownUntil (pts : Z) (sem : Semaphore) : outcome Time :=
  let! ra := pauseDuration pts sem in
  Ok (Time_Add (pausedAt sem) ra).

(** The end of [Release]: the receive from [sema] and the deferred
    unlock. *)
Definition receive (sem : Semaphore) : Semaphore :=
  if (len (sema sem) =? 0)%nat
  then set_sema (chan_recv (sema sem)) sem
  else set_mu false (set_sema (chan_recv (sema sem)) sem).

(** What a [Release] that returns has done. *)
Inductive ReleaseCase (pts : Z) (now1 now2 : Time) (sem : Semaphore)
  : Semaphore -> list Goroutine -> Prop :=
| RelAbove :
    AtThreshold (Update pts (balance sem)) = false ->
    ReleaseCase pts now1 now2 sem
      (receive (set_balance (Update pts (balance sem)) (set_mu true sem))) []
| RelCooling (cu : Time) :
    AtThreshold (Update pts (balance sem)) = true ->
    cooldownUntil pts sem = Ok cu ->
    now1 <= cu ->
    ReleaseCase pts now1 now2 sem
      (receive (set_balance (Update pts (balance sem)) (set_mu true sem))) []
| RelArms (cu : Time) (ra : Duration) (fn : PauseFn) :
    AtThreshold (Update pts (balance sem)) = true ->
    pauseDuration pts sem = Ok ra ->
    cooldownUntil pts sem = Ok cu ->
    cu < now1 ->
    PauseFunc sem = Some fn ->
    ReleaseCase pts now1 now2 sem
      (receive
         (set_pausedAt now2
            (set_paused true
               (set_balance (Update pts (balance sem)) (set_mu true sem)))))
      [GoPauseFunc fn pts ra; GoResume ra].

(** *** Aquire

    One scheduling step of a call of [Aquire]: from a loop head to the next
    loop head or to the return.  Other goroutines run between two steps, so
    the semaphore a step reads is the one of that moment. *)
Definition Aquire_step (pick : Pick) (a : Aquirer) (sem : Semaphore)
  : Aquirer * Semaphore :=
  match pc a with
  | PauseCheck =>
      if paused sem
      then ({| ctx := ctx a; pc := PauseCheck; waits := waits a ++ [Spin] |}, sem)
      else ({| ctx := ctx a; pc := Select; waits := waits a |}, sem)
  | Select =>
      match select pick (ctx a) (sema sem) with
      | SelDone e =>
          ({| ctx := ctx a; pc := Returned (Some e); waits := waits a |}, sem)
      | SelSend =>
          let handoff := (0 <? recvq (sema sem))%nat in
          let sem := set_sema (chan_send (sema sem)) sem in
          (* the parked Release receives, returns and unlocks *)
          let sem := if handoff then set_mu false sem else sem in
          ({| ctx := ctx a; pc := Returned None; waits := waits a |}, sem)
      | SelDefault =>
          ({| ctx := ctx a; pc := PauseCheck;
              waits := waits a ++ [Sleep (AquireBuffer sem)] |}, sem)
      end
  | Returned _ => (a, sem)
  end.

(** A call of [Aquire] while no other goroutine runs: one step per element
    of [picks]. *)
Fixpoint Aquire_steps (picks : list Pick) (a : Aquirer) (sem : Semaphore)
  : Aquirer * Semaphore :=
  match picks with
  | [] => (a, sem)
  | pick :: picks' =>
      let '(a', sem') := Aquire_step pick a sem in
      Aquire_steps picks' a' sem'
  end.

Definition Aquire (c : Context) (picks : list Pick) (sem : Semaphore)
  : Aquirer * Semaphore :=
  Aquire_steps picks (new_call c) sem.

(** *** The program: a semaphore and the goroutines using it *)

Record System : Type := mkSystem {
  sem : Semaphore;
  user : U;                   (* what the callbacks act on *)
  aquirers : list Aquirer;    (* the calls of Aquire, by number *)
  pending : list Goroutine;   (* started with go, not run yet *)
  calls : list Call;          (* callback invocations so far *)
  aquired : nat;              (* calls of Aquire that returned nil *)
  released : nat              (* calls of Release that returned *)
}.

Definition init (sem0 : Semaphore) (u : U) : System :=
  {| sem := sem0; user := u; aquirers := []; pending := []; calls := [];
     aquired := 0; released := 0 |}.

Inductive Event : Type :=
| ECall (c : Context)                     (* a goroutine calls Aquire(c) *)
| ECancel (i : nat) (e : error)           (* the context of call i is done *)
| EAquire (i : nat) (pick : Pick)         (* call i takes a step *)
| ERelease (pts : Z) (now1 now2 : Time)   (* a goroutine calls Release(pts) *)
| EGo (k : nat).                          (* pending goroutine k runs *)

Definition slot_taken (a a' : Aquirer) : bool :=
  match pc a, pc a' with
  | Select, Returned None => true
  | _, _ => false
  end.

Definition step (ev : Event) (s : System) : outcome System :=
  match ev with
  | ECall c =>
      Ok (mkSystem (sem s) (user s) (aquirers s ++ [new_call c]) (pending s)
            (calls s) (aquired s) (released s))
  | ECancel i e =>
      match aquirers s !! i with
      | Some a =>
          let a' := if ctx a is None
                    then {| ctx := Some e; pc := pc a; waits := waits a |}
                    else a in
          Ok (mkSystem (sem s) (user s) (<[i:=a']> (aquirers s)) (pending s)
                (calls s) (aquired s) (released s))
      | None => Ok s
      end
  | EAquire i pick =>
      match aquirers s !! i with
      | Some a =>
          let '(a', sem') := Aquire_step pick a (sem s) in
          let handoff := (recvq (sema sem') <? recvq (sema (sem s)))%nat in
          Ok (mkSystem sem' (user s) (<[i:=a']> (aquirers s)) (pending s)
                (calls s)
                (if slot_taken a a' then S (aquired s) else aquired s)
                (if handoff then S (released s) else released s))
      | None => Ok s
      end
  | ERelease pts now1 now2 =>
      if mu (sem s) then Ok s   (* blocked in sem.mu.Lock() *)
      else
        let! (sem', gs) := Release pts now1 now2 (sem s) in
        Ok (mkSystem sem' (user s) (aquirers s) (pending s ++ gs) (calls s)
              (aquired s)
              (if mu sem' then released s else S (released s)))
  | EGo k =>
      match pending s !! k with
      | Some (GoPauseFunc fn pts ra) =>
          Ok (mkSystem (sem s) (fn pts ra (user s)) (aquirers s)
                (delete k (pending s)) (calls s ++ [PauseCalled pts ra])
                (aquired s) (released s))
      | Some (GoResume ra) =>
          match ResumeFunc (sem s) with
          | Some fn =>
              Ok (mkSystem (set_paused false (sem s)) (fn (user s))
                    (aquirers s) (delete k (pending s))
                    (calls s ++ [ResumeCalled]) (aquired s) (released s))
          | None => Panic NilFunc
          end
      | None => Ok s
      end
  end.

Fixpoint run (evs : list Event) (s : System) : outcome System :=
  match evs with
  | [] => Ok s
  | ev :: evs' => let! s' := step ev s in run evs' s'
  end.

(** Slots held: calls of [Aquire] that returned nil and were not yet
    matched by a [Release] that returned. *)
Definition held (s : System) : Z := Z.of_nat (aquired s) - Z.of_nat (released s).

(** The invariant of every run: the channel keeps its capacity, never
    holds more than that, and its length is the number of slots held. *)
Definition bounded (n : nat) (s : System) : Prop :=
  cap (sema (sem s)) = n
  /\ (len (sema (sem s)) <= n)%nat
  /\ aquired s = (released s + len (sema (sem s)))%nat.

End Semaphore.

Arguments mkSemaphore {U}.
Arguments balance {U}.
Arguments PauseFunc {U}.
Arguments ResumeFunc {U}.
Arguments PauseBuffer {U}.
Arguments AquireBuffer {U}.
Arguments pausedAt {U}.
Arguments sema {U}.
Arguments mu {U}.
Arguments paused {U}.
Arguments set_balance {U}.
Arguments set_PauseFunc {U}.
Arguments set_ResumeFunc {U}.
Arguments set_PauseBuffer {U}.
Arguments set_AquireBuffer {U}.
Arguments set_pausedAt {U}.
Arguments set_sema {U}.
Arguments set_mu {U}.
Arguments set_paused {U}.
Arguments WithPauseFunc {U}.
Arguments WithResumeFunc {U}.
Arguments WithAquireBuffer {U}.
Arguments WithPauseBuffer {U}.
Arguments NewSemaphore {U}.
Arguments literal {U}.
Arguments apply_opts {U}.
Arguments keeps_unexported {U}.
Arguments keeps_PauseBuffer {U}.
Arguments keeps_AquireBuffer {U}.
Arguments GoPauseFunc {U}.
Arguments GoResume {U}.
Arguments Release {U}.
Arguments pauseDuration {U}.
Arguments cooldownUntil {U}.
Arguments receive {U}.
Arguments ReleaseCase {U}.
Arguments RelAbove {U}.
Arguments RelCooling {U}.
Arguments RelArms {U}.
Arguments Aquire_step {U}.
Arguments Aquire_steps {U}.
Arguments Aquire {U}.
Arguments mkSystem {U}.
Arguments sem {U}.
Arguments user {U}.
Arguments aquirers {U}.
Arguments pending {U}.
Arguments calls {U}.
Arguments aquired {U}.
Arguments released {U}.
Arguments init {U}.
Arguments step {U}.
Arguments run {U}.
Arguments held {U}.
Arguments bounded {U}.

(** The [newSemaphore] helper of the semaphore tests. *)
Definition newSemaphore {U : Type} (cap : Z) (opts : list (SemaphoreOption U))
  : outcome (Semaphore U) :=
  NewSemaphore cap (NewBalance 900 1000 100) opts.

(** ** Situations of the tests *)

(** A semaphore of capacity 2 over the balance of the tests, with both
    slots taken by two calls of [Aquire]. *)
Definition two_holders : outcome (System unit) :=
  let! sem0 := newSemaphore 2 [] in
  run [ECall Background; ECall Background;
       EAquire 0 PickSend; EAquire 0 PickSend;
       EAquire 1 PickSend; EAquire 1 PickSend] (init sem0 tt).


(** The first release of the tests reached the threshold: the semaphore is
    paused, and a new call of [Aquire] is scheduled three times. *)
Definition paused_then_call : outcome (System unit) :=
  let! sem0 := newSemaphore 1 [] in
  run [ECall Background; EAquire 0 PickSend; EAquire 0 PickSend;
       ERelease 900 (50 * Second) (50 * Second);
       ECall Background;
       EAquire 1 PickSend; EAquire 1 PickSend; EAquire 1 PickSend]
      (init sem0 tt).

(** ** Sequences of calls *)

(** The balance after [Update] was called with each observation of [ps] in
    turn, as successive calls of [Release] do. *)
Definition Updates (ps : list Z) (b : Balance) : Balance :=
  fold_left (fun b p => Update p b) ps b.

(** The last observation of [ps] that is not an error value, if any. *)
Definition last_valid (ps : list Z) : option Z :=
  last (List.filter (fun p => p >? ErrPts) ps).

(** Events other than the run of a goroutine started by [Release]. *)
Definition not_go (ev : Event) : Prop :=
  match ev with
  | EGo _ => False
  | _ => True
  end.

(** Calls of [Release]. *)
Definition is_release (ev : Event) : Prop :=
  match ev with
  | ERelease _ _ _ => True
  | _ => False
  end.


(** What no call changes once the semaphore is built: the refill model,
    the callbacks, the two buffers and the capacity of the channel. *)
Definition same_config {U : Type} (x y : Semaphore U) : Prop :=
  Threshold (balance x) = Threshold (balance y)
  /\ Limit (balance x) = Limit (balance y)
  /\ RefillRate (balance x) = RefillRate (balance y)
  /\ PauseFunc x = PauseFunc y
  /\ ResumeFunc x = ResumeFunc y
  /\ PauseBuffer x = PauseBuffer y
  /\ AquireBuffer x = AquireBuffer y
  /\ cap (sema x) = cap (sema y).

(** A semaphore on which no call can panic: both callbacks are set and the
    refill rate is not zero. *)
Definition cannot_panic {U : Type} (x : Semaphore U) : Prop :=
  PauseFunc x <> None /\ ResumeFunc x <> None /\ RefillRate (balance x) <> 0.


(** Pauses and resumes a program has started: goroutines still pending
    and callbacks already called. *)
Definition is_pause_go {U : Type} (g : Goroutine U) : nat :=
  match g with GoPauseFunc _ _ _ => 1 | GoResume _ => 0 end.
Definition is_resume_go {U : Type} (g : Goroutine U) : nat :=
  match g with GoPauseFunc _ _ _ => 0 | GoResume _ => 1 end.
Definition is_pause_call (c : Call) : nat :=
  match c with PauseCalled _ _ => 1 | ResumeCalled => 0 end.
Definition is_resume_call (c : Call) : nat :=
  match c with PauseCalled _ _ => 0 | ResumeCalled => 1 end.

Definition pauses_started {U : Type} (s : System U) : nat :=
  list_sum (map is_pause_go (pending s)) + list_sum (map is_pause_call (calls s)).
Definition resumes_started {U : Type} (s : System U) : nat :=
  list_sum (map is_resume_go (pending s)) + list_sum (map is_resume_call (calls s)).

(** * Properties *)

(** ** Machine integers *)

Lemma wrap32_id (x : Z) : is_int32 x -> wrap32 x = x.
Proof.
  unfold is_int32, min_int32, max_int32, wrap32, wrap. intros H.
  change (2 ^ (32 - 1)) with 2147483648. change (2 ^ 32) with 4294967296.
  rewrite Z.mod_small; lia.
Qed.

Lemma wrap64_id (x : Z) : is_int64 x -> wrap64 x = x.
Proof.
  unfold is_int64, min_int64, max_int64, wrap64, wrap. intros H.
  change (2 ^ (64 - 1)) with 9223372036854775808.
  change (2 ^ 64) with 18446744073709551616.
  rewrite Z.mod_small; lia.
Qed.

Lemma wrap32_range (x : Z) : is_int32 (wrap32 x).
Proof.
  unfold is_int32, min_int32, max_int32, wrap32, wrap.
  change (2 ^ (32 - 1)) with 2147483648. change (2 ^ 32) with 4294967296.
  pose proof (Z.mod_pos_bound (x + 2147483648) 4294967296). lia.
Qed.

(** Truncated division by a positive divisor does not leave the interval
    the dividend is in. *)
Lemma quot_pos_bounds (x y : Z) :
  0 < y -> Z.min 0 x <= Z.quot x y <= Z.max 0 x.
Proof.
  intros Hy.
  destruct (Z.le_gt_cases 0 x) as [Hx | Hx].
  - assert (0 <= Z.quot x y) by (apply Z.quot_pos; lia).
    assert (Z.quot x y <= x) by (apply Z.quot_le_upper_bound; nia).
    lia.
  - assert (Hq : Z.quot x y = - Z.quot (- x) y).
    { rewrite Z.quot_opp_l by lia. lia. }
    assert (0 <= Z.quot (- x) y) by (apply Z.quot_pos; lia).
    assert (Z.quot (- x) y <= - x) by (apply Z.quot_le_upper_bound; nia).
    lia.
Qed.

Lemma quot_pos_int32 (x y : Z) : is_int32 x -> 0 < y -> is_int32 (Z.quot x y).
Proof.
  unfold is_int32, min_int32, max_int32. intros Hx Hy.
  pose proof (quot_pos_bounds x y Hy). lia.
Qed.

Lemma seconds_int64 (q : Z) : is_int32 q -> is_int64 (q * Second).
Proof.
  unfold is_int32, is_int64, min_int32, max_int32, min_int64, max_int64, Second.
  lia.
Qed.

(** ** Balance *)

Lemma RefillDuration_eq (b : Balance) :
  0 < RefillRate b ->
  RefillDuration b
  = Ok (Z.quot (wrap32 (Limit b - Remaining b)) (RefillRate b) * Second).
Proof.
  intros Hrr. unfold RefillDuration, div32, sub32, mul64.
  destruct (RefillRate b =? 0) eqn:E; [lia |]. simpl.
  assert (Hw : is_int32 (wrap32 (Limit b - Remaining b))).
  { apply wrap32_range. }
  rewrite (wrap32_id (Z.quot _ _)) by (apply quot_pos_int32; assumption).
  rewrite wrap64_id; [reflexivity |].
  apply seconds_int64, quot_pos_int32; assumption.
Qed.

Lemma Update_Threshold (p : Z) (b : Balance) : Threshold (Update p b) = Threshold b.
Proof. unfold Update. destruct (p >? ErrPts); reflexivity. Qed.

Lemma Update_Limit (p : Z) (b : Balance) : Limit (Update p b) = Limit b.
Proof. unfold Update. destruct (p >? ErrPts); reflexivity. Qed.

Lemma Update_RefillRate (p : Z) (b : Balance) : RefillRate (Update p b) = RefillRate b.
Proof. unfold Update. destruct (p >? ErrPts); reflexivity. Qed.

Lemma Update_Remaining (p : Z) (b : Balance) :
  Remaining (Update p b) = if p >? ErrPts then p else Remaining b.
Proof. unfold Update. destruct (p >? ErrPts); reflexivity. Qed.

Lemma RefillDuration_no_wrap (b : Balance) :
  0 < RefillRate b ->
  is_int32 (Limit b - Remaining b) ->
  RefillDuration b
  = Ok (Z.quot (Limit b - Remaining b) (RefillRate b) * Second).
Proof.
  intros Hrr Hfit. rewrite RefillDuration_eq by assumption.
  rewrite wrap32_id by assumption. reflexivity.
Qed.

Lemma nonneg_difference_fits (b : Balance) :
  is_int32 (Limit b) -> is_int32 (Remaining b) ->
  0 <= Limit b -> 0 <= Remaining b ->
  is_int32 (Limit b - Remaining b).
Proof. unfold is_int32, min_int32, max_int32. lia. Qed.

(** C2, as amended.  For a balance with a positive refill rate whose
    difference [Limit - Remaining] is representable as an [int32],
    [RefillDuration] is the quotient of that difference by the refill rate,
    truncated towards zero, in seconds; the quotient is the floor when
    nothing is above the limit.  The difference is representable whenever
    limit and remaining are non-negative [int32] values.  With limit 1000
    and refill rate 100, a full balance gives 0 seconds and an empty one 10
    seconds. *)
Theorem RefillDuration_truncated (b : Balance) :
  0 < RefillRate b ->
  (is_int32 (Limit b - Remaining b) ->
   RefillDuration b
   = Ok (Z.quot (Limit b - Remaining b) (RefillRate b) * Second))
  /\ (is_int32 (Limit b) -> is_int32 (Remaining b) ->
      0 <= Limit b -> 0 <= Remaining b ->
      RefillDuration b
      = Ok (Z.quot (Limit b - Remaining b) (RefillRate b) * Second))
  /\ (Remaining b <= Limit b ->
      Z.quot (Limit b - Remaining b) (RefillRate b)
      = (Limit b - Remaining b) / RefillRate b)
  /\ (forall thld, RefillDuration (NewBalance thld 1000 100) = Ok (0 * Second))
  /\ (forall thld,
        RefillDuration (Update 0 (NewBalance thld 1000 100)) = Ok (10 * Second)).
Proof.
  intros Hrr. split; [| split; [| split; [| split]]].
  - intros Hfit. apply RefillDuration_no_wrap; assumption.
  - intros Hl Hr Hl0 Hr0. apply RefillDuration_no_wrap; [assumption |].
    apply nonneg_difference_fits; assumption.
  - intros Hle. apply Z.quot_div_nonneg; lia.
  - intros thld. reflexivity.
  - intros thld. reflexivity.
Qed.

Lemma RefillDuration_truncated_witness :
  0 < RefillRate (Update 250 newBalance)
  /\ is_int32 (Limit (Update 250 newBalance) - Remaining (Update 250 newBalance))
  /\ RefillDuration (Update 250 newBalance) = Ok (7 * Second).
Proof.
  assert (Hrr : 0 < RefillRate (Update 250 newBalance)) by (vm_compute; reflexivity).
  assert (Hfit : is_int32 (Limit (Update 250 newBalance)
                           - Remaining (Update 250 newBalance))).
  { vm_compute. split; discriminate. }
  split; [exact Hrr | split; [exact Hfit |]].
  exact (proj1 (RefillDuration_truncated (Update 250 newBalance) Hrr) Hfit).
Defined.

(** C2 as stated fails where the [int32] subtraction wraps: with limit
    [min_int32], remaining 1 and refill rate 1 the code returns 2147483647
    seconds, not the quotient of the difference -2147483649. *)
Lemma RefillDuration_wraps :
  0 < RefillRate (Update 1 (NewBalance 0 min_int32 1))
  /\ RefillDuration (Update 1 (NewBalance 0 min_int32 1))
     = Ok (2147483647 * Second)
  /\ RefillDuration (Update 1 (NewBalance 0 min_int32 1))
     <> Ok (Z.quot (Limit (Update 1 (NewBalance 0 min_int32 1))
                    - Remaining (Update 1 (NewBalance 0 min_int32 1)))
                   (RefillRate (Update 1 (NewBalance 0 min_int32 1))) * Second)
  /\ RefillDuration (Update 1 (NewBalance 0 min_int32 1))
     <> Ok ((Limit (Update 1 (NewBalance 0 min_int32 1))
             - Remaining (Update 1 (NewBalance 0 min_int32 1)))
            / RefillRate (Update 1 (NewBalance 0 min_int32 1)) * Second).
Proof.
  split; [reflexivity | split; [reflexivity | split]];
    vm_compute; discriminate.
Qed.

(** C6.  [Update] with the sentinel [ErrPts] (-1) leaves the remaining
    balance unchanged, [Update] with a value strictly greater than the
    sentinel stores that value, and [Update 500] followed by
    [Update ErrPts] leaves a remaining balance of 500. *)
Theorem Update_sentinel (b : Balance) (p : Z) :
  ErrPts = -1
  /\ (p = ErrPts -> Remaining (Update p b) = Remaining b)
  /\ (ErrPts < p -> Remaining (Update p b) = p)
  /\ Remaining (Update ErrPts (Update 500 b)) = 500.
Proof.
  split; [reflexivity |]. split; [| split].
  - intros ->. reflexivity.
  - intros Hp. rewrite Update_Remaining.
    destruct (p >? ErrPts) eqn:E; [reflexivity | lia].
  - reflexivity.
Qed.

Lemma Update_sentinel_witness :
  ErrPts < 500 /\ Remaining (Update 500 newBalance) = 500.
Proof.
  assert (Hp : ErrPts < 500) by (vm_compute; reflexivity).
  split; [exact Hp |].
  exact (proj1 (proj2 (proj2 (Update_sentinel newBalance 500))) Hp).
Defined.

(** C10.  [Update] with a value strictly below the sentinel leaves the
    balance, and so its remaining points, unchanged, exactly as the
    sentinel does: every value at or below -1 is a no-op. *)
Theorem Update_below_sentinel (b : Balance) (p : Z) :
  p < ErrPts ->
  Remaining (Update p b) = Remaining b
  /\ Update p b = Update ErrPts b
  /\ Update p b = b.
Proof.
  intros Hp. unfold Update.
  destruct (p >? ErrPts) eqn:E; [lia |].
  repeat split; reflexivity.
Qed.

Lemma Update_below_sentinel_witness :
  -100 < ErrPts /\ Remaining (Update (-100) (Update 500 newBalance)) = 500.
Proof.
  assert (Hp : -100 < ErrPts) by (vm_compute; reflexivity).
  split; [exact Hp |].
  exact (proj1 (Update_below_sentinel (Update 500 newBalance) (-100) Hp)).
Defined.

(** ** NewSemaphore *)

Section Construction.

Context {U : Type}.

Lemma apply_opts_invariant (P : Semaphore U -> Prop)
    (opts : list (SemaphoreOption U)) :
  Forall (fun opt => forall s, P s -> P (opt s)) opts ->
  forall s, P s -> P (apply_opts opts s).
Proof.
  unfold apply_opts. induction 1 as [| opt opts Hopt _ IH]; intros s Hs.
  - exact Hs.
  - simpl. apply IH, Hopt, Hs.
Qed.

Lemma apply_opts_field {A : Type} (f : Semaphore U -> A)
    (opts : list (SemaphoreOption U)) :
  Forall (fun opt => forall s, f (opt s) = f s) opts ->
  forall s, f (apply_opts opts s) = f s.
Proof.
  intros H s.
  apply (apply_opts_invariant (fun x => f x = f s)); [| reflexivity].
  eapply Forall_impl; [exact H |]. simpl. intros opt Hopt x Hx.
  rewrite Hopt. exact Hx.
Qed.

(** [NewSemaphore] after its options: only the two callbacks and the
    acquire buffer receive a default. *)
Lemma NewSemaphore_Ok (cap : Z) (b : Balance) (opts : list (SemaphoreOption U)) :
  0 <= cap ->
  exists sem, NewSemaphore cap b opts = Ok sem
    /\ balance sem = balance (apply_opts opts (literal cap b))
    /\ PauseBuffer sem = PauseBuffer (apply_opts opts (literal cap b))
    /\ AquireBuffer sem
       = (if AquireBuffer (apply_opts opts (literal cap b)) =? 0
          then DefaultAquireBuffer
          else AquireBuffer (apply_opts opts (literal cap b)))
    /\ sema sem = sema (apply_opts opts (literal cap b))
    /\ pausedAt sem = pausedAt (apply_opts opts (literal cap b))
    /\ mu sem = mu (apply_opts opts (literal cap b))
    /\ paused sem = paused (apply_opts opts (literal cap b))
    /\ PauseFunc sem <> None /\ ResumeFunc sem <> None.
Proof.
  intros Hcap. unfold NewSemaphore.
  destruct (cap <? 0) eqn:E; [lia |].
  fold (literal (U:=U) cap b). fold (apply_opts opts (literal cap b)).
  generalize (apply_opts opts (literal cap b)).
  intros [bal pf rf pb ab pa sm m pd].
  eexists. split; [reflexivity |].
  destruct pf, rf; cbn; destruct (ab =? 0); cbn; repeat split; congruence.
Qed.

Lemma NewSemaphore_negative (cap : Z) (b : Balance) (opts : list (SemaphoreOption U)) :
  cap < 0 -> NewSemaphore cap b opts = Panic MakechanSize.
Proof. intros H. unfold NewSemaphore. destruct (cap <? 0) eqn:E; [reflexivity | lia]. Qed.

Lemma NewSemaphore_inv (cap : Z) (b : Balance) (opts : list (SemaphoreOption U))
    (sem : Semaphore U) :
  NewSemaphore cap b opts = Ok sem -> 0 <= cap.
Proof.
  intros H. destruct (Z.lt_ge_cases cap 0) as [Hneg | Hpos]; [| exact Hpos].
  rewrite NewSemaphore_negative in H by assumption. discriminate.
Qed.

End Construction.

(** C4, what the code does.  A semaphore built by [NewSemaphore] with no
    option that sets the pause buffer has a pause buffer of 0, which is not
    [DefaultPauseBuffer]: that default is declared and never applied,
    whereas the acquire buffer, when no option sets it, does get
    [DefaultAquireBuffer]. *)
Theorem NewSemaphore_PauseBuffer_not_defaulted {U : Type} (cap : Z) (b : Balance)
    (opts : list (SemaphoreOption U)) (sem : Semaphore U) :
  Forall keeps_PauseBuffer opts ->
  NewSemaphore cap b opts = Ok sem ->
  PauseBuffer sem = 0
  /\ PauseBuffer sem <> DefaultPauseBuffer
  /\ (Forall keeps_AquireBuffer opts -> AquireBuffer sem = DefaultAquireBuffer).
Proof.
  intros Hopts Hnew.
  destruct (NewSemaphore_Ok cap b opts (NewSemaphore_inv _ _ _ _ Hnew))
    as (sem' & Hsem' & _ & Hpb & Hab & _).
  rewrite Hnew in Hsem'. injection Hsem' as <-.
  assert (H0 : PauseBuffer sem = 0).
  { rewrite Hpb. rewrite (apply_opts_field PauseBuffer) by exact Hopts. reflexivity. }
  split; [exact H0 | split].
  - rewrite H0. discriminate.
  - intros Hab'. rewrite Hab.
    rewrite (apply_opts_field AquireBuffer) by exact Hab'. reflexivity.
Qed.

Lemma NewSemaphore_PauseBuffer_not_defaulted_witness :
  exists sem : Semaphore unit,
    newSemaphore 1 [] = Ok sem
    /\ PauseBuffer sem = 0
    /\ PauseBuffer sem <> DefaultPauseBuffer
    /\ AquireBuffer sem = DefaultAquireBuffer.
Proof.
  eexists. split; [reflexivity |].
  destruct (NewSemaphore_PauseBuffer_not_defaulted (U:=unit) 1
              (NewBalance 900 1000 100) [] _ (Forall_nil_2 _) eq_refl)
    as (H0 & Hne & Hab).
  split; [exact H0 | split; [exact Hne | exact (Hab (Forall_nil_2 _))]].
Defined.

(** ** Construction and misconfiguration *)

Lemma NewBalance_fields (thld max rr : Z) :
  Threshold (NewBalance thld max rr) = thld
  /\ Limit (NewBalance thld max rr) = max
  /\ RefillRate (NewBalance thld max rr) = rr.
Proof.
  unfold NewBalance.
  rewrite Update_Threshold, Update_Limit, Update_RefillRate. auto.
Qed.

Lemma RefillDuration_zero_rate (b : Balance) :
  RefillRate b = 0 -> RefillDuration b = Panic DivideByZero.
Proof. intros H. unfold RefillDuration, div32. rewrite H. reflexivity. Qed.

(** C5, as amended.  Construction validates nothing and returns no error:
    [NewBalance] stores whatever threshold, limit and refill rate it is
    given, and [NewSemaphore] returns a semaphore around that balance for
    every capacity that is not negative, with a channel of that capacity
    (a negative capacity panics in [make]).  A balance with refill rate 0
    is accepted, and [RefillDuration] then panics with a division by
    zero. *)
Theorem construction_validates_nothing {U : Type} (thld max rr n : Z)
    (opts : list (SemaphoreOption U)) :
  Threshold (NewBalance thld max rr) = thld
  /\ Limit (NewBalance thld max rr) = max
  /\ RefillRate (NewBalance thld max rr) = rr
  /\ (0 <= n ->
      exists sem, NewSemaphore n (NewBalance thld max rr) opts = Ok sem
        /\ (opts = [] ->
            balance sem = NewBalance thld max rr
            /\ cap (sema sem) = Z.to_nat n))
  /\ (n < 0 ->
      NewSemaphore n (NewBalance thld max rr) opts = Panic MakechanSize)
  /\ (rr = 0 -> RefillDuration (NewBalance thld max rr) = Panic DivideByZero).
Proof.
  destruct (NewBalance_fields thld max rr) as (Ht & Hl & Hr).
  split; [exact Ht | split; [exact Hl | split; [exact Hr |]]].
  split; [| split].
  - intros Hcap.
    destruct (NewSemaphore_Ok (U:=U) n (NewBalance thld max rr) opts Hcap)
      as (sem & Hsem & Hb & _ & _ & Hs & _).
    exists sem. split; [exact Hsem |].
    intros ->. rewrite Hb, Hs. split; reflexivity.
  - apply NewSemaphore_negative.
  - intros ->. apply RefillDuration_zero_rate. exact Hr.
Qed.

Lemma construction_validates_nothing_witness :
  0 <= 0
  /\ exists sem : Semaphore unit,
       NewSemaphore 0 (NewBalance 2000 1000 0) [] = Ok sem
       /\ RefillDuration (NewBalance 2000 1000 0) = Panic DivideByZero.
Proof.
  assert (Hcap : 0 <= 0) by lia.
  split; [exact Hcap |].
  destruct (construction_validates_nothing (U:=unit) 2000 1000 0 0 [])
    as (_ & _ & _ & Hok & _ & Hdiv).
  destruct (Hok Hcap) as (sem & Hsem & _).
  exists sem. split; [exact Hsem | exact (Hdiv eq_refl)].
Defined.

(** C5 as stated fails: a refill rate of 0, a threshold above the limit
    and a capacity of 0 are all accepted, construction returns a semaphore
    and no error, and the first [Release] that reaches the threshold
    panics with a division by zero. *)
Lemma misconfiguration_is_accepted :
  exists sem : Semaphore unit,
    NewSemaphore 0 (NewBalance 2000 1000 0) [] = Ok sem
    /\ RefillRate (balance sem) = 0
    /\ Limit (balance sem) < Threshold (balance sem)
    /\ cap (sema sem) = 0%nat
    /\ RefillDuration (balance sem) = Panic DivideByZero
    /\ Release 500 Second Second sem = Panic DivideByZero.
Proof.
  eexists. split; [reflexivity |].
  repeat split.
Qed.

(** ** Release *)

(** Projections of updated semaphores, and the bind of [outcome]. *)
Ltac sem_simpl :=
  cbn [balance PauseFunc ResumeFunc PauseBuffer AquireBuffer pausedAt sema mu
       paused set_balance set_PauseFunc set_ResumeFunc set_PauseBuffer
       set_AquireBuffer set_pausedAt set_sema set_mu set_paused bind] in *.

Section ReleaseFacts.

Context {U : Type}.

(** [Release] by cases. *)
Lemma Release_above_threshold (pts : Z) (now1 now2 : Time) (sem : Semaphore U) :
  AtThreshold (Update pts (balance sem)) = false ->
  Release pts now1 now2 sem
  = Ok (receive (set_balance (Update pts (balance sem)) (set_mu true sem)), []).
Proof.
  intros H. unfold Release. sem_simpl.
  rewrite H. reflexivity.
Qed.

Lemma Release_panics (pts : Z) (now1 now2 : Time) (sem : Semaphore U) (p : panic) :
  AtThreshold (Update pts (balance sem)) = true ->
  RefillDuration (Update pts (balance sem)) = Panic p ->
  Release pts now1 now2 sem = Panic p.
Proof.
  intros H Hp. unfold Release. sem_simpl.
  rewrite H, Hp. reflexivity.
Qed.

Lemma Release_cooling (pts : Z) (now1 now2 : Time) (sem : Semaphore U) (cu : Time) :
  AtThreshold (Update pts (balance sem)) = true ->
  cooldownUntil pts sem = Ok cu ->
  now1 <= cu ->
  Release pts now1 now2 sem
  = Ok (receive (set_balance (Update pts (balance sem)) (set_mu true sem)), []).
Proof.
  intros H Hcu Hnow. unfold Release. sem_simpl.
  rewrite H. unfold cooldownUntil, pauseDuration in Hcu.
  destruct (RefillDuration (Update pts (balance sem))) as [rd | p];
    [| discriminate].
  sem_simpl. injection Hcu as <-.
  sem_simpl. unfold Time_Before.
  destruct (Time_Add (pausedAt sem) (add64 rd (PauseBuffer sem)) <? now1) eqn:E;
    [lia | reflexivity].
Qed.

Lemma Release_arms (pts : Z) (now1 now2 : Time) (sem : Semaphore U)
    (cu : Time) (ra : Duration) (fn : PauseFn U) :
  AtThreshold (Update pts (balance sem)) = true ->
  pauseDuration pts sem = Ok ra ->
  cooldownUntil pts sem = Ok cu ->
  cu < now1 ->
  PauseFunc sem = Some fn ->
  Release pts now1 now2 sem
  = Ok (receive
          (set_pausedAt now2
             (set_paused true
                (set_balance (Update pts (balance sem)) (set_mu true sem)))),
        [GoPauseFunc fn pts ra; GoResume ra]).
Proof.
  intros H Hra Hcu Hnow Hfn. unfold Release. sem_simpl.
  rewrite H. unfold cooldownUntil in Hcu. rewrite Hra in Hcu.
  unfold pauseDuration in Hra.
  destruct (RefillDuration (Update pts (balance sem))) as [rd | p];
    [| discriminate].
  sem_simpl. injection Hra as <-. injection Hcu as <-.
  sem_simpl. unfold Time_Before.
  destruct (Time_Add (pausedAt sem) (add64 rd (PauseBuffer sem)) <? now1) eqn:E;
    [| lia].
  rewrite Hfn. reflexivity.
Qed.

Lemma Release_cases (pts : Z) (now1 now2 : Time) (sem sem' : Semaphore U)
    (gs : list (Goroutine U)) :
  Release pts now1 now2 sem = Ok (sem', gs) ->
  ReleaseCase pts now1 now2 sem sem' gs.
Proof.
  intros HR.
  destruct (AtThreshold (Update pts (balance sem))) eqn:Hat.
  - destruct (RefillDuration (Update pts (balance sem))) as [rd | p] eqn:Hrd.
    + assert (Hra : pauseDuration pts sem = Ok (add64 rd (PauseBuffer sem))).
      { unfold pauseDuration. rewrite Hrd. reflexivity. }
      assert (Hcu : cooldownUntil pts sem
                    = Ok (Time_Add (pausedAt sem) (add64 rd (PauseBuffer sem)))).
      { unfold cooldownUntil. rewrite Hra. reflexivity. }
      destruct (Z.lt_ge_cases
                  (Time_Add (pausedAt sem) (add64 rd (PauseBuffer sem))) now1)
        as [Hlt | Hge].
      * destruct (PauseFunc sem) as [fn |] eqn:Hfn.
        -- rewrite (Release_arms _ _ _ _ _ _ _ Hat Hra Hcu Hlt Hfn) in HR.
           injection HR as <- <-. eapply RelArms; eassumption.
        -- exfalso. revert HR. unfold Release. sem_simpl.
           rewrite Hat, Hrd.
           sem_simpl. unfold Time_Before.
           destruct (Time_Add (pausedAt sem) (add64 rd (PauseBuffer sem)) <? now1)
             eqn:E; [| lia].
           rewrite Hfn. discriminate.
      * rewrite (Release_cooling _ _ _ _ _ Hat Hcu Hge) in HR.
        injection HR as <- <-. eapply RelCooling; eassumption.
    + rewrite (Release_panics _ _ _ _ _ Hat Hrd) in HR. discriminate.
  - rewrite (Release_above_threshold _ _ _ _ Hat) in HR.
    injection HR as <- <-. apply RelAbove. exact Hat.
Qed.

End ReleaseFacts.

(** *** The duration of a pause *)

Lemma pauseDuration_nonneg {U : Type} (pts : Z) (sem : Semaphore U) (ra : Duration) :
  AtThreshold (Update pts (balance sem)) = true ->
  pauseDuration pts sem = Ok ra ->
  0 < RefillRate (balance sem) ->
  Threshold (balance sem) <= Limit (balance sem) ->
  Limit (balance sem) <= max_int32 ->
  0 <= Remaining (balance sem) ->
  0 <= PauseBuffer sem <= max_int64 - max_int32 * Second ->
  0 <= ra.
Proof.
  intros Hat Hra Hrr Htl Hl Hrem Hpb.
  set (b' := Update pts (balance sem)) in *.
  assert (Hrr' : 0 < RefillRate b') by (unfold b'; rewrite Update_RefillRate; exact Hrr).
  assert (Hlim : Limit b' = Limit (balance sem)) by apply Update_Limit.
  assert (Hthr : Threshold b' = Threshold (balance sem)) by apply Update_Threshold.
  assert (Hlow : 0 <= Remaining b').
  { unfold b'. rewrite Update_Remaining. unfold ErrPts.
    destruct (pts >? -1) eqn:E; lia. }
  assert (Hup : Remaining b' <= Limit b').
  { unfold AtThreshold in Hat. lia. }
  assert (Hfit : is_int32 (Limit b' - Remaining b')).
  { unfold is_int32, min_int32. unfold max_int32 in *. lia. }
  pose proof (RefillDuration_no_wrap b' Hrr' Hfit) as Hrd.
  unfold pauseDuration in Hra. fold b' in Hra. rewrite Hrd in Hra.
  cbn [bind] in Hra. injection Hra as <-.
  pose proof (quot_pos_bounds (Limit b' - Remaining b') (RefillRate b') Hrr') as Hq.
  unfold add64. unfold max_int64, max_int32, Second in *.
  rewrite wrap64_id; [nia |].
  unfold is_int64, min_int64, max_int64. nia.
Qed.

(** C3, as amended.  [Release] does not clamp.  When it starts a pause,
    the duration handed to the pause callback and slept before the resume
    is [RefillDuration() + PauseBuffer] as computed, whatever its sign.  It
    is not negative when the configuration is sound: a positive refill
    rate, a threshold not above the limit, a non-negative remaining
    balance, and a non-negative pause buffer small enough for the sum not
    to overflow. *)
Theorem Release_pause_duration {U : Type} (pts : Z) (now1 now2 : Time)
    (sem sem' : Semaphore U) (gs : list (Goroutine U)) :
  Release pts now1 now2 sem = Ok (sem', gs) ->
  gs <> [] ->
  exists fn ra,
    pauseDuration pts sem = Ok ra
    /\ gs = [GoPauseFunc fn pts ra; GoResume ra]
    /\ (0 < RefillRate (balance sem) ->
        Threshold (balance sem) <= Limit (balance sem) ->
        Limit (balance sem) <= max_int32 ->
        0 <= Remaining (balance sem) ->
        0 <= PauseBuffer sem <= max_int64 - max_int32 * Second ->
        0 <= ra).
Proof.
  intros HR Hgs.
  destruct (Release_cases _ _ _ _ _ _ HR) as [Hat | cu Hat Hcu Hnow | cu ra fn Hat Hra Hcu Hnow Hfn];
    [contradiction | contradiction |].
  exists fn, ra. split; [exact Hra | split; [reflexivity |]].
  intros. eapply pauseDuration_nonneg; eassumption.
Qed.

Lemma Release_pause_duration_witness :
  exists (sem sem' : Semaphore unit) (gs : list (Goroutine unit)),
    newSemaphore 1 [] = Ok sem
    /\ Release 900 (5 * Second) (5 * Second) sem = Ok (sem', gs)
    /\ gs <> []
    /\ exists fn ra,
         pauseDuration 900 sem = Ok ra
         /\ gs = [GoPauseFunc fn 900 ra; GoResume ra]
         /\ 0 <= ra.
Proof.
  eexists. eexists. eexists.
  split; [reflexivity |].
  match goal with
  | |- ?R = _ /\ _ =>
      assert (HR : R = Ok (receive
                             (set_pausedAt (5 * Second)
                                (set_paused true
                                   (set_balance (Update 900 (NewBalance 900 1000 100))
                                      (set_mu true
                                         (mkSemaphore (NewBalance 900 1000 100)
                                            (Some (fun _ _ u => u))
                                            (Some (fun u => u)) 0
                                            DefaultAquireBuffer zeroTime
                                            (make_chan 1) false false))))),
                           [GoPauseFunc (fun _ _ u => u) 900 (1 * Second);
                            GoResume (1 * Second)]))
        by reflexivity
  end.
  split; [exact HR |].
  assert (Hne : [GoPauseFunc (fun (_ : Z) (_ : Duration) (u : unit) => u) 900 (1 * Second);
                 GoResume (1 * Second)] <> []) by discriminate.
  split; [exact Hne |].
  destruct (Release_pause_duration _ _ _ _ _ _ HR Hne) as (fn & ra & Hra & Hgs & Hnn).
  exists fn, ra. split; [exact Hra | split; [exact Hgs |]].
  apply Hnn; vm_compute; first [reflexivity | discriminate | split; discriminate].
Defined.

(** C3 as stated fails: with a threshold of 5000 above the limit of 1000,
    [Release 3000] starts a pause whose duration, passed to the pause
    callback and to the sleep before the resume, is -20 seconds. *)
Lemma Release_negative_pause :
  exists (sem : Semaphore unit) (s : System unit) (fn : PauseFn unit),
    NewSemaphore 1 (NewBalance 5000 1000 100) [] = Ok sem
    /\ run [ECall Background; EAquire 0 PickSend; EAquire 0 PickSend;
            ERelease 3000 (1700000000 * Second) (1700000000 * Second)]
           (init sem tt) = Ok s
    /\ pending s = [GoPauseFunc fn 3000 (-20 * Second); GoResume (-20 * Second)]
    /\ -20 * Second < 0
    /\ exists s', run [EGo 0] s = Ok s'
                  /\ calls s' = [PauseCalled 3000 (-20 * Second)].
Proof.
  eexists. eexists. eexists.
  split; [reflexivity |]. split; [vm_compute; reflexivity |].
  split; [reflexivity |]. split; [reflexivity |].
  eexists. split; [vm_compute; reflexivity | reflexivity].
Qed.

(** *** The cooldown guard *)

Section Cooldown.

Context {U : Type}.

Lemma receive_fields (x : Semaphore U) :
  balance (receive x) = balance x
  /\ PauseFunc (receive x) = PauseFunc x
  /\ ResumeFunc (receive x) = ResumeFunc x
  /\ PauseBuffer (receive x) = PauseBuffer x
  /\ AquireBuffer (receive x) = AquireBuffer x
  /\ pausedAt (receive x) = pausedAt x
  /\ paused (receive x) = paused x
  /\ sema (receive x) = chan_recv (sema x).
Proof.
  unfold receive. destruct (len (sema x) =? 0)%nat; sem_simpl; repeat split.
Qed.

(** The fields [Release] never writes. *)
Lemma Release_frame (pts : Z) (now1 now2 : Time) (x x' : Semaphore U)
    (gs : list (Goroutine U)) :
  Release pts now1 now2 x = Ok (x', gs) ->
  balance x' = Update pts (balance x)
  /\ PauseFunc x' = PauseFunc x
  /\ ResumeFunc x' = ResumeFunc x
  /\ PauseBuffer x' = PauseBuffer x
  /\ AquireBuffer x' = AquireBuffer x
  /\ sema x' = chan_recv (sema x).
Proof.
  intros HR.
  destruct (Release_cases _ _ _ _ _ _ HR);
    match goal with
    | |- context [receive ?y] =>
        destruct (receive_fields y) as (-> & -> & -> & -> & -> & _ & _ & ->)
    end; sem_simpl; repeat split.
Qed.

(** The cooldown instant is [pausedAt + RefillDuration() + PauseBuffer]
    whenever the sum of the two durations is an [int64]. *)
Lemma cooldownUntil_exact (pts : Z) (x : Semaphore U) (rd : Duration) :
  RefillDuration (Update pts (balance x)) = Ok rd ->
  is_int64 (rd + PauseBuffer x) ->
  cooldownUntil pts x = Ok (pausedAt x + rd + PauseBuffer x).
Proof.
  intros Hrd Hfit. unfold cooldownUntil, pauseDuration. rewrite Hrd.
  cbn [bind]. unfold add64, Time_Add. rewrite wrap64_id by exact Hfit.
  f_equal. lia.
Qed.

(** A [Release] starts a pause exactly when the balance is at the
    threshold and the cooldown instant is strictly before the clock. *)
Lemma Release_arms_iff (pts : Z) (now1 now2 : Time) (x x' : Semaphore U)
    (gs : list (Goroutine U)) :
  Release pts now1 now2 x = Ok (x', gs) ->
  (gs <> [] <->
   AtThreshold (Update pts (balance x)) = true
   /\ exists cu, cooldownUntil pts x = Ok cu /\ cu < now1).
Proof.
  intros HR.
  destruct (Release_cases _ _ _ _ _ _ HR) as [Hat | cu Hat Hcu Hnow | cu ra fn Hat Hra Hcu Hnow Hfn].
  - split; [intros H; contradiction | intros (H & _); congruence].
  - split; [intros H; contradiction |].
    intros (_ & cu' & Hcu' & Hlt). rewrite Hcu in Hcu'. injection Hcu' as <-. lia.
  - split; [| discriminate]. intros _. split; [exact Hat |]. exists cu. auto.
Qed.

Lemma step_Release (s : System U) (pts : Z) (now1 now2 : Time) :
  mu (sem s) = false ->
  step (ERelease pts now1 now2) s
  = (let! (sem', gs) := Release pts now1 now2 (sem s) in
     Ok (mkSystem sem' (user s) (aquirers s) (pending s ++ gs) (calls s)
           (aquired s) (if mu sem' then released s else S (released s)))).
Proof. intros Hmu. cbn [step]. rewrite Hmu. reflexivity. Qed.


End Cooldown.



(** ** The capacity bound *)

Section Capacity.

Context {U : Type}.

(** What a step of [Aquire] does to the semaphore: it sends on the
    channel, which could proceed, or it changes nothing. *)
Lemma Aquire_step_sema (pick : Pick) (a a' : Aquirer) (x x' : Semaphore U) :
  Aquire_step pick a x = (a', x') ->
  (slot_taken a a' = true
   /\ can_send (sema x) = true
   /\ sema x' = chan_send (sema x))
  \/ (slot_taken a a' = false /\ x' = x).
Proof.
  unfold Aquire_step, slot_taken. intros H.
  destruct (pc a) eqn:Hpc.
  - destruct (paused x); injection H as <- <-; right; cbn; auto.
  - unfold select in H.
    destruct (ctx a) as [e |], (can_send (sema x)) eqn:Hcs; try destruct pick;
      injection H as <- <-; cbn [pc]; auto; left;
      (split; [reflexivity | split; [reflexivity |]]);
      destruct (0 <? recvq (sema x))%nat; reflexivity.
  - injection H as <- <-. right. auto.
Qed.

Lemma chan_send_cases (c : Chan) :
  can_send c = true ->
  ((0 < recvq c)%nat /\ len (chan_send c) = len c
   /\ (recvq (chan_send c) < recvq c)%nat /\ cap (chan_send c) = cap c)
  \/ (recvq c = 0%nat /\ (len c < cap c)%nat /\ len (chan_send c) = S (len c)
      /\ recvq (chan_send c) = recvq c /\ cap (chan_send c) = cap c).
Proof.
  unfold can_send, chan_send. intros H.
  destruct (0 <? recvq c)%nat eqn:E.
  - left. apply Nat.ltb_lt in E. cbn. repeat split; lia.
  - right. apply Nat.ltb_ge in E. cbn in H. apply Nat.ltb_lt in H.
    cbn. repeat split; lia.
Qed.

Lemma receive_mu (x : Semaphore U) :
  mu x = true -> mu (receive x) = (len (sema x) =? 0)%nat.
Proof.
  intros H. unfold receive. destruct (len (sema x) =? 0)%nat; sem_simpl; auto.
Qed.

Lemma Release_mu (pts : Z) (now1 now2 : Time) (x x' : Semaphore U)
    (gs : list (Goroutine U)) :
  Release pts now1 now2 x = Ok (x', gs) ->
  mu x' = (len (sema x) =? 0)%nat.
Proof.
  intros HR.
  destruct (Release_cases _ _ _ _ _ _ HR); rewrite receive_mu; reflexivity.
Qed.

Lemma step_bounded (n : nat) (ev : Event) (s s' : System U) :
  bounded n s -> step ev s = Ok s' -> bounded n s'.
Proof.
  unfold bounded. intros (Hcap & Hlen & Hcount) Hstep.
  destruct ev as [c | i e | i pick | pts now1 now2 | k]; cbn [step] in Hstep.
  - injection Hstep as <-. cbn. auto.
  - destruct (aquirers s !! i); injection Hstep as <-; cbn; auto.
  - destruct (aquirers s !! i) as [a |]; [| injection Hstep as <-; auto].
    destruct (Aquire_step pick a (sem s)) as [a' x'] eqn:Hstep'.
    injection Hstep as <-. cbn [sem aquired released].
    destruct (Aquire_step_sema _ _ _ _ _ Hstep') as [(-> & Hcs & ->) | (-> & ->)].
    + destruct (chan_send_cases _ Hcs) as [(Hq & -> & Hq' & ->) | (Hq & Hl & -> & -> & ->)].
      * apply Nat.ltb_lt in Hq'. rewrite Hq'. repeat split; lia.
      * rewrite Nat.ltb_irrefl. repeat split; lia.
    + rewrite Nat.ltb_irrefl. auto.
  - destruct (mu (sem s)) eqn:Hmu; [injection Hstep as <-; auto |].
    destruct (Release pts now1 now2 (sem s)) as [[x' gs] | p] eqn:HR;
      [| discriminate].
    cbn [bind] in Hstep. injection Hstep as <-. cbn [sem aquired released].
    rewrite (Release_mu _ _ _ _ _ _ HR).
    destruct (Release_frame _ _ _ _ _ _ HR) as (_ & _ & _ & _ & _ & ->).
    unfold chan_recv.
    destruct (len (sema (sem s))) as [| l] eqn:El; cbn; repeat split; lia.
  - destruct (pending s !! k) as [[fn pts ra | ra] |];
      [| destruct (ResumeFunc (sem s)); [| discriminate] |];
      injection Hstep as <-; cbn; auto.
Qed.

Lemma run_bounded (n : nat) (evs : list Event) :
  forall s s' : System U, bounded n s -> run evs s = Ok s' -> bounded n s'.
Proof.
  induction evs as [| ev evs IH]; intros s s' Hb Hrun; cbn [run] in Hrun.
  - injection Hrun as <-. exact Hb.
  - destruct (step ev s) as [s1 | p] eqn:Hstep; [| discriminate].
    cbn [bind] in Hrun. eapply IH; [| exact Hrun].
    eapply step_bounded; eassumption.
Qed.

Lemma init_bounded (n : Z) (b : Balance) (opts : list (SemaphoreOption U))
    (sem0 : Semaphore U) (u : U) :
  Forall keeps_unexported opts ->
  NewSemaphore n b opts = Ok sem0 ->
  bounded (Z.to_nat n) (init sem0 u).
Proof.
  intros Hopts Hnew.
  destruct (NewSemaphore_Ok n b opts (NewSemaphore_inv _ _ _ _ Hnew))
    as (sem' & Hsem' & _ & _ & _ & Hs & _).
  rewrite Hnew in Hsem'. injection Hsem' as <-.
  assert (Hsema : sema sem0 = make_chan (Z.to_nat n)).
  { rewrite Hs. rewrite (apply_opts_field sema); [reflexivity |].
    eapply Forall_impl; [exact Hopts |]. intros opt H x. apply H. }
  unfold bounded. cbn [init sem aquired released]. rewrite Hsema. cbn.
  repeat split; lia.
Qed.

End Capacity.

(** C1.  On a semaphore built by [NewSemaphore] with capacity [n], after
    any sequence of steps of [Aquire] and [Release] calls (and of the
    goroutines [Release] started), the number of slots held - calls of
    [Aquire] that returned nil less calls of [Release] that returned - is
    the length of the channel and lies between 0 and [n]. *)
Theorem capacity_bound {U : Type} (n : Z) (b : Balance)
    (opts : list (SemaphoreOption U)) (sem0 : Semaphore U) (u : U)
    (evs : list Event) (s : System U) :
  Forall keeps_unexported opts ->
  NewSemaphore n b opts = Ok sem0 ->
  run evs (init sem0 u) = Ok s ->
  held s = Z.of_nat (len (sema (sem s))) /\ 0 <= held s <= n.
Proof.
  intros Hopts Hnew Hrun.
  pose proof (NewSemaphore_inv _ _ _ _ Hnew) as Hn.
  destruct (run_bounded _ evs _ _ (init_bounded n b opts sem0 u Hopts Hnew) Hrun)
    as (_ & Hlen & Hcount).
  unfold held. rewrite Hcount. lia.
Qed.

Lemma capacity_bound_witness :
  exists (sem0 : Semaphore unit) (s : System unit),
    Forall keeps_unexported ([] : list (SemaphoreOption unit))
    /\ newSemaphore 1 [] = Ok sem0
    /\ run [ECall Background; ECall Background;
            EAquire 0 PickSend; EAquire 0 PickSend;
            EAquire 1 PickSend; EAquire 1 PickSend;
            ERelease 1000 (50 * Second) (50 * Second);
            EAquire 1 PickSend; EAquire 1 PickSend] (init sem0 tt) = Ok s
    /\ held s = Z.of_nat (len (sema (sem s)))
    /\ 0 <= held s <= 1.
Proof.
  eexists. eexists.
  split; [apply Forall_nil_2 |].
  split; [reflexivity |].
  split; [vm_compute; reflexivity |].
  refine (capacity_bound (U:=unit) 1 (NewBalance 900 1000 100) [] _ tt
            [ECall Background; ECall Background;
             EAquire 0 PickSend; EAquire 0 PickSend;
             EAquire 1 PickSend; EAquire 1 PickSend;
             ERelease 1000 (50 * Second) (50 * Second);
             EAquire 1 PickSend; EAquire 1 PickSend] _
            (Forall_nil_2 _) _ _);
    [reflexivity | vm_compute; reflexivity].
Defined.

(** ** Aquire *)

Section AquireFacts.

Context {U : Type}.

Lemma Aquire_step_paused (pick : Pick) (a : Aquirer) (x : Semaphore U) :
  pc a = PauseCheck -> paused x = true ->
  Aquire_step pick a x
  = ({| ctx := ctx a; pc := PauseCheck; waits := waits a ++ [Spin] |}, x).
Proof. intros Hpc Hp. unfold Aquire_step. rewrite Hpc, Hp. reflexivity. Qed.

Lemma Aquire_step_unpaused (pick : Pick) (a : Aquirer) (x : Semaphore U) :
  pc a = PauseCheck -> paused x = false ->
  Aquire_step pick a x = ({| ctx := ctx a; pc := Select; waits := waits a |}, x).
Proof. intros Hpc Hp. unfold Aquire_step. rewrite Hpc, Hp. reflexivity. Qed.


Lemma Aquire_step_default (pick : Pick) (a : Aquirer) (x : Semaphore U) :
  pc a = Select -> select pick (ctx a) (sema x) = SelDefault ->
  Aquire_step pick a x
  = ({| ctx := ctx a; pc := PauseCheck;
        waits := waits a ++ [Sleep (AquireBuffer x)] |}, x).
Proof. intros Hpc Hs. unfold Aquire_step. rewrite Hpc, Hs. reflexivity. Qed.

Lemma select_default (pick : Pick) (c : Context) (ch : Chan) :
  select pick c ch = SelDefault <-> c = None /\ can_send ch = false.
Proof.
  unfold select. destruct c, (can_send ch), pick; split;
    first [discriminate | intros (? & ?); discriminate | auto].
Qed.


(** While the pause flag stays set a call only spins. *)
Lemma Aquire_steps_paused (picks : list Pick) (x : Semaphore U) :
  paused x = true ->
  forall a, pc a = PauseCheck ->
  Aquire_steps picks a x
  = ({| ctx := ctx a; pc := PauseCheck;
        waits := waits a ++ repeat Spin (length picks) |}, x).
Proof.
  intros Hp. induction picks as [| pick picks IH]; intros a Hpc.
  - cbn. rewrite app_nil_r. destruct a; cbn in *; subst; reflexivity.
  - cbn [Aquire_steps]. rewrite Aquire_step_paused by assumption.
    rewrite IH by reflexivity. cbn [ctx waits length repeat].
    rewrite <- app_assoc. reflexivity.
Qed.

End AquireFacts.




(** C9, as amended.  A call of [Aquire] that finds no slot free and its
    context not done sleeps [AquireBuffer] before it tries again; nothing
    else in [Aquire] sleeps.  While the pause flag is set the call goes
    round the inner loop without sleeping, as many times as it is
    scheduled. *)
Theorem Aquire_throttle {U : Type} (pick : Pick) (a : Aquirer) (x : Semaphore U) :
  (pc a = Select -> ctx a = None -> can_send (sema x) = false ->
   Aquire_step pick a x
   = ({| ctx := ctx a; pc := PauseCheck;
         waits := waits a ++ [Sleep (AquireBuffer x)] |}, x))
  /\ (pc a = PauseCheck -> paused x = true ->
      Aquire_step pick a x
      = ({| ctx := ctx a; pc := PauseCheck; waits := waits a ++ [Spin] |}, x))
  /\ (forall a' x', Aquire_step pick a x = (a', x') ->
        waits a' = waits a
        \/ (pc a = Select /\ waits a' = waits a ++ [Sleep (AquireBuffer x)])
        \/ (pc a = PauseCheck /\ paused x = true
            /\ waits a' = waits a ++ [Spin]))
  /\ (forall (c : Context) (picks : list Pick), paused x = true ->
        Aquire c picks x
        = ({| ctx := c; pc := PauseCheck;
              waits := repeat Spin (length picks) |}, x)).
Proof.
  split; [| split; [| split]].
  - intros Hpc Hctx Hcs. apply Aquire_step_default; [exact Hpc |].
    apply select_default. auto.
  - apply Aquire_step_paused.
  - intros a' x' Hstep. unfold Aquire_step in Hstep.
    destruct (pc a) eqn:Hpc.
    + destruct (paused x) eqn:Hp; injection Hstep as <- <-; cbn [waits]; auto.
    + destruct (select pick (ctx a) (sema x)); injection Hstep as <- <-;
        cbn [waits]; auto.
    + injection Hstep as <- <-. auto.
  - intros c picks Hp. unfold Aquire.
    rewrite Aquire_steps_paused by (exact Hp || reflexivity). reflexivity.
Qed.

Lemma Aquire_throttle_witness :
  exists s : System unit,
    paused_then_call = Ok s
    /\ paused (sem s) = true
    /\ Aquire Background [PickSend; PickSend] (sem s)
       = ({| ctx := Background; pc := PauseCheck; waits := [Spin; Spin] |}, sem s).
Proof.
  eexists.
  split; [vm_compute; reflexivity |].
  split; [reflexivity |].
  match goal with
  | |- Aquire _ _ ?x = _ =>
      exact (proj2 (proj2 (proj2
               (Aquire_throttle PickSend (new_call Background) x)))
               Background [PickSend; PickSend] eq_refl)
  end.
Defined.

(** C9 as stated fails: while the semaphore is paused a call of [Aquire]
    went round its loop three times and never slept. *)
Lemma Aquire_spins_while_paused :
  exists s : System unit,
    paused_then_call = Ok s
    /\ paused (sem s) = true
    /\ aquirers s !! 1%nat
       = Some {| ctx := Background; pc := PauseCheck;
                 waits := [Spin; Spin; Spin] |}.
Proof.
  eexists. split; [vm_compute; reflexivity |]. split; reflexivity.
Qed.

(** * Further properties of balance.go *)

(** X1.  A balance made by [NewBalance] with a limit that is not negative
    starts full: its remaining points are the limit, it needs no refill
    (whatever the non-zero refill rate) and it is at the threshold exactly
    when the limit is not above the threshold.  With a negative limit the
    initial [Update] is refused and the remaining points stay 0, not the
    limit. *)
Theorem NewBalance_fresh (thld max rr : Z) :
  (0 <= max ->
   Remaining (NewBalance thld max rr) = max
   /\ (rr <> 0 -> RefillDuration (NewBalance thld max rr) = Ok 0)
   /\ AtThreshold (NewBalance thld max rr) = (max <=? thld))
  /\ (max < 0 ->
      Remaining (NewBalance thld max rr) = 0
      /\ Remaining (NewBalance thld max rr) <> Limit (NewBalance thld max rr)
      /\ AtThreshold (NewBalance thld max rr) = (0 <=? thld)).
Proof.
  unfold NewBalance, Update, ErrPts. split; intros Hmax.
  - destruct (max >? -1) eqn:E; [| lia]. cbn.
    split; [reflexivity |]. split; [| reflexivity].
    intros Hrr. unfold RefillDuration, div32, sub32, Store.
    cbn [Limit Remaining RefillRate].
    rewrite Z.sub_diag. destruct (rr =? 0) eqn:E0; [lia |].
    change (wrap32 0) with 0. rewrite Z.quot_0_l by exact Hrr. reflexivity.
  - destruct (max >? -1) eqn:E; [lia |]. cbn.
    split; [reflexivity |]. split; [lia | reflexivity].
Qed.

Lemma NewBalance_fresh_witness :
  0 <= 2000 /\ 100 <> 0
  /\ Remaining (NewBalance 200 2000 100) = 2000
  /\ RefillDuration (NewBalance 200 2000 100) = Ok 0.
Proof.
  assert (H0 : 0 <= 2000) by lia.
  assert (Hrr : 100 <> 0) by lia.
  destruct (proj1 (NewBalance_fresh 200 2000 100) H0) as (Hrem & Hrd & _).
  split; [exact H0 | split; [exact Hrr | split; [exact Hrem | exact (Hrd Hrr)]]].
Defined.

(** X2.  The threshold is inclusive and judged on the stored balance: after
    [Update p] with a valid observation the balance is at the threshold
    exactly when [p <= Threshold]; after an error value the answer is the
    one before the call. *)
Theorem AtThreshold_after_Update (b : Balance) (p : Z) :
  (ErrPts < p -> (AtThreshold (Update p b) = true <-> p <= Threshold b))
  /\ (p <= ErrPts -> AtThreshold (Update p b) = AtThreshold b).
Proof.
  unfold AtThreshold. split; intros Hp.
  - rewrite Update_Remaining, Update_Threshold.
    destruct (p >? ErrPts) eqn:E; [| lia]. apply Z.leb_le.
  - rewrite Update_Remaining, Update_Threshold.
    destruct (p >? ErrPts) eqn:E; [lia | reflexivity].
Qed.

Lemma AtThreshold_after_Update_witness :
  ErrPts < 100 /\ 100 <= Threshold newBalance
  /\ AtThreshold (Update 100 newBalance) = true.
Proof.
  assert (Hp : ErrPts < 100) by (vm_compute; reflexivity).
  assert (Hle : 100 <= Threshold newBalance) by (vm_compute; discriminate).
  split; [exact Hp | split; [exact Hle |]].
  exact (proj2 (proj1 (AtThreshold_after_Update newBalance 100) Hp) Hle).
Defined.

Lemma Updates_snoc (ps : list Z) (p : Z) (b : Balance) :
  Updates (ps ++ [p]) b = Update p (Updates ps b).
Proof. unfold Updates. rewrite fold_left_app. reflexivity. Qed.

Lemma last_valid_snoc (ps : list Z) (p : Z) :
  last_valid (ps ++ [p]) = if p >? ErrPts then Some p else last_valid ps.
Proof.
  unfold last_valid. rewrite List.filter_app. cbn [List.filter].
  destruct (p >? ErrPts).
  - apply last_snoc.
  - rewrite app_nil_r. reflexivity.
Qed.

(** X3.  After any sequence of [Update] calls the remaining points are the
    last observation that was not an error value, or the initial ones when
    there was none; threshold, limit and refill rate never change. *)
Theorem Updates_last_valid (ps : list Z) (b : Balance) :
  Remaining (Updates ps b) = default (Remaining b) (last_valid ps)
  /\ Threshold (Updates ps b) = Threshold b
  /\ Limit (Updates ps b) = Limit b
  /\ RefillRate (Updates ps b) = RefillRate b.
Proof.
  induction ps as [| p ps IH] using rev_ind.
  - cbn. auto.
  - destruct IH as (Hr & Ht & Hl & Hrr).
    rewrite Updates_snoc, last_valid_snoc.
    rewrite Update_Remaining, Update_Threshold, Update_Limit, Update_RefillRate.
    destruct (p >? ErrPts); cbn [default]; auto.
Qed.

(** X4.  The remaining points of a balance made by [NewBalance] are never
    negative, whatever was given to [NewBalance] and to the [Update] calls
    after it. *)
Theorem Remaining_never_negative (thld max rr : Z) (ps : list Z) :
  0 <= Remaining (Updates ps (NewBalance thld max rr)).
Proof.
  assert (H0 : 0 <= Remaining (NewBalance thld max rr)).
  { unfold NewBalance. rewrite Update_Remaining. unfold ErrPts.
    destruct (max >? -1) eqn:E; cbn; lia. }
  induction ps as [| p ps IH] using rev_ind.
  - exact H0.
  - rewrite Updates_snoc, Update_Remaining. unfold ErrPts.
    destruct (p >? -1) eqn:E; lia.
Qed.

(** X5.  The only way [RefillDuration] fails is the division by a refill
    rate of zero.  With any other rate, negative ones included, it returns
    a whole number of seconds that fits an [int32]. *)
Theorem RefillDuration_panics_only_on_zero_rate (b : Balance) :
  (RefillRate b = 0 -> RefillDuration b = Panic DivideByZero)
  /\ (RefillRate b <> 0 ->
      exists q, is_int32 q /\ RefillDuration b = Ok (q * Second)).
Proof.
  split; intros Hrr.
  - apply RefillDuration_zero_rate. exact Hrr.
  - unfold RefillDuration, div32. destruct (RefillRate b =? 0) eqn:E; [lia |].
    cbn [bind]. eexists. split; [apply wrap32_range |].
    unfold mul64. rewrite wrap64_id; [reflexivity |].
    apply seconds_int64, wrap32_range.
Qed.

Lemma RefillDuration_panics_only_on_zero_rate_witness :
  RefillRate (NewBalance 100 1000 0) = 0
  /\ RefillDuration (NewBalance 100 1000 0) = Panic DivideByZero.
Proof.
  assert (Hrr : RefillRate (NewBalance 100 1000 0) = 0) by reflexivity.
  split; [exact Hrr |].
  exact (proj1 (RefillDuration_panics_only_on_zero_rate (NewBalance 100 1000 0)) Hrr).
Defined.

(** X6.  With a positive refill rate and observations between 0 and the
    limit, a lower observation never gives a shorter refill: the duration
    after [Update p] is at least the one after [Update q] when [p <= q],
    both lie between 0 and [Limit] seconds. *)
Theorem RefillDuration_monotone (b : Balance) (p q : Z) :
  0 < RefillRate b ->
  Limit b <= max_int32 ->
  0 <= p -> p <= q -> q <= Limit b ->
  exists dp dq,
    RefillDuration (Update p b) = Ok dp
    /\ RefillDuration (Update q b) = Ok dq
    /\ 0 <= dq /\ dq <= dp /\ dp <= Limit b * Second.
Proof.
  intros Hrr Hmax Hp Hpq Hq.
  assert (Hup : forall x, 0 <= x -> x <= Limit b ->
            RefillDuration (Update x b)
            = Ok (Z.quot (Limit b - x) (RefillRate b) * Second)).
  { intros x Hx0 Hx.
    assert (Hrem : Remaining (Update x b) = x).
    { rewrite Update_Remaining. unfold ErrPts.
      destruct (x >? -1) eqn:E; [reflexivity | lia]. }
    rewrite RefillDuration_no_wrap; rewrite ?Update_RefillRate, ?Update_Limit, ?Hrem.
    - reflexivity.
    - exact Hrr.
    - unfold is_int32, min_int32. unfold max_int32 in *. lia. }
  exists (Z.quot (Limit b - p) (RefillRate b) * Second),
         (Z.quot (Limit b - q) (RefillRate b) * Second).
  split; [apply Hup; lia |]. split; [apply Hup; lia |].
  assert (H1 : 0 <= Z.quot (Limit b - q) (RefillRate b)) by (apply Z.quot_pos; lia).
  assert (H2 : Z.quot (Limit b - q) (RefillRate b)
               <= Z.quot (Limit b - p) (RefillRate b))
    by (apply Z.quot_le_mono; lia).
  pose proof (quot_pos_bounds (Limit b - p) (RefillRate b) Hrr) as H3.
  unfold Second. lia.
Qed.

Lemma RefillDuration_monotone_witness :
  0 < RefillRate newBalance /\ Limit newBalance <= max_int32
  /\ 0 <= 250 /\ 250 <= 900 /\ 900 <= Limit newBalance
  /\ exists dp dq,
       RefillDuration (Update 250 newBalance) = Ok dp
       /\ RefillDuration (Update 900 newBalance) = Ok dq
       /\ 0 <= dq /\ dq <= dp /\ dp <= Limit newBalance * Second.
Proof.
  assert (H1 : 0 < RefillRate newBalance) by (vm_compute; reflexivity).
  assert (H2 : Limit newBalance <= max_int32) by (vm_compute; discriminate).
  assert (H3 : 0 <= 250) by lia.
  assert (H4 : 250 <= 900) by lia.
  assert (H5 : 900 <= Limit newBalance) by (vm_compute; discriminate).
  repeat (split; [assumption |]).
  exact (RefillDuration_monotone newBalance 250 900 H1 H2 H3 H4 H5).
Defined.

(** * Further properties of semaphore.go *)

Section Options.

Context {U : Type}.

Lemma apply_opts_snoc (opts : list (SemaphoreOption U)) (opt : SemaphoreOption U)
    (s : Semaphore U) :
  apply_opts (opts ++ [opt]) s = opt (apply_opts opts s).
Proof. unfold apply_opts. rewrite fold_left_app. reflexivity. Qed.


End Options.

(** X7.  Buffers given as the last option: [WithPauseBuffer d] makes the
    pause buffer [d], whatever [d] is; [WithAquireBuffer d] makes the
    acquire buffer [d] unless [d] is 0, which [NewSemaphore] replaces by
    [DefaultAquireBuffer].  So the acquire buffer of a semaphore built by
    [NewSemaphore] is never 0, whatever the options. *)
Theorem NewSemaphore_buffers {U : Type} (n : Z) (b : Balance)
    (opts : list (SemaphoreOption U)) (d : Duration) :
  0 <= n ->
  (exists sem, NewSemaphore n b (opts ++ [WithPauseBuffer d]) = Ok sem
     /\ PauseBuffer sem = d)
  /\ (exists sem, NewSemaphore n b (opts ++ [WithAquireBuffer d]) = Ok sem
        /\ AquireBuffer sem = (if d =? 0 then DefaultAquireBuffer else d))
  /\ (exists sem, NewSemaphore n b opts = Ok sem /\ AquireBuffer sem <> 0).
Proof.
  intros Hn. split; [| split].
  - destruct (NewSemaphore_Ok n b (opts ++ [WithPauseBuffer d]) Hn)
      as (sem & Hsem & _ & Hpb & _).
    exists sem. split; [exact Hsem |]. rewrite Hpb, apply_opts_snoc. reflexivity.
  - destruct (NewSemaphore_Ok n b (opts ++ [WithAquireBuffer d]) Hn)
      as (sem & Hsem & _ & _ & Hab & _).
    exists sem. split; [exact Hsem |]. rewrite Hab, apply_opts_snoc. reflexivity.
  - destruct (NewSemaphore_Ok n b opts Hn) as (sem & Hsem & _ & _ & Hab & _).
    exists sem. split; [exact Hsem |]. rewrite Hab.
    destruct (AquireBuffer (apply_opts opts (literal n b)) =? 0) eqn:E;
      [discriminate | lia].
Qed.

Lemma NewSemaphore_buffers_witness :
  0 <= 1
  /\ exists sem : Semaphore unit,
       NewSemaphore 1 (NewBalance 900 1000 100)
         ([WithAquireBuffer (5 * Second)] ++ [WithAquireBuffer 0]) = Ok sem
       /\ AquireBuffer sem = DefaultAquireBuffer.
Proof.
  assert (Hn : 0 <= 1) by lia.
  split; [exact Hn |].
  exact (proj1 (proj2 (NewSemaphore_buffers (U:=unit) 1 (NewBalance 900 1000 100)
                         [WithAquireBuffer (5 * Second)] 0 Hn))).
Defined.



(** ** Panics *)

Lemma RefillDuration_nonzero_rate (b : Balance) :
  RefillRate b <> 0 -> exists d, RefillDuration b = Ok d.
Proof.
  intros Hrr. unfold RefillDuration, div32.
  destruct (RefillRate b =? 0) eqn:E; [lia |]. cbn [bind]. eauto.
Qed.

Section Panics.

Context {U : Type}.

Lemma Release_Ok (pts : Z) (now1 now2 : Time) (x : Semaphore U) :
  PauseFunc x <> None ->
  RefillRate (balance x) <> 0 ->
  exists x' gs, Release pts now1 now2 x = Ok (x', gs).
Proof.
  intros Hpf Hrr.
  destruct (AtThreshold (Update pts (balance x))) eqn:Hat.
  - destruct (RefillDuration_nonzero_rate (Update pts (balance x))) as (rd & Hrd).
    { rewrite Update_RefillRate. exact Hrr. }
    assert (Hra : pauseDuration pts x = Ok (add64 rd (PauseBuffer x))).
    { unfold pauseDuration. rewrite Hrd. reflexivity. }
    assert (Hcu : cooldownUntil pts x
                  = Ok (Time_Add (pausedAt x) (add64 rd (PauseBuffer x)))).
    { unfold cooldownUntil. rewrite Hra. reflexivity. }
    destruct (Z.lt_ge_cases (Time_Add (pausedAt x) (add64 rd (PauseBuffer x))) now1)
      as [Hlt | Hge].
    + destruct (PauseFunc x) as [fn |] eqn:Hfn; [| contradiction].
      eexists. eexists. eapply Release_arms; eassumption.
    + eexists. eexists. eapply Release_cooling; eassumption.
  - eexists. eexists. apply Release_above_threshold. exact Hat.
Qed.

Lemma Aquire_step_frame (pick : Pick) (a a' : Aquirer) (x x' : Semaphore U) :
  Aquire_step pick a x = (a', x') ->
  balance x' = balance x /\ PauseFunc x' = PauseFunc x
  /\ ResumeFunc x' = ResumeFunc x /\ PauseBuffer x' = PauseBuffer x
  /\ AquireBuffer x' = AquireBuffer x /\ pausedAt x' = pausedAt x
  /\ paused x' = paused x /\ cap (sema x') = cap (sema x).
Proof.
  unfold Aquire_step. intros H.
  destruct (pc a).
  - destruct (paused x) eqn:Hp; injection H as <- <-; repeat split; exact Hp.
  - destruct (select pick (ctx a) (sema x)); injection H as <- <-.
    + repeat split.
    + unfold chan_send.
      destruct (0 <? recvq (sema x))%nat; sem_simpl; cbn [cap]; repeat split.
    + repeat split.
  - injection H as <- <-. repeat split.
Qed.

End Panics.

(** X9.  On a semaphore whose pause callback is set, [Release] panics in
    one case only: the balance it has just updated is at the threshold and
    the refill rate is 0, and the panic is the division by zero of
    [RefillDuration]. *)
Theorem Release_panics_only_on_zero_rate {U : Type} (pts : Z) (now1 now2 : Time)
    (x : Semaphore U) (p : panic) :
  PauseFunc x <> None ->
  (Release pts now1 now2 x = Panic p
   <-> p = DivideByZero
       /\ AtThreshold (Update pts (balance x)) = true
       /\ RefillRate (balance x) = 0).
Proof.
  intros Hpf. split.
  - intros HR.
    destruct (Z.eq_dec (RefillRate (balance x)) 0) as [Hrr | Hrr].
    + destruct (AtThreshold (Update pts (balance x))) eqn:Hat.
      * rewrite (Release_panics pts now1 now2 x DivideByZero Hat) in HR.
        -- injection HR as <-. auto.
        -- apply RefillDuration_zero_rate. rewrite Update_RefillRate. exact Hrr.
      * rewrite Release_above_threshold in HR by exact Hat. discriminate.
    + destruct (Release_Ok pts now1 now2 x Hpf Hrr) as (x' & gs & HOk).
      rewrite HOk in HR. discriminate.
  - intros (-> & Hat & Hrr). apply Release_panics; [exact Hat |].
    apply RefillDuration_zero_rate. rewrite Update_RefillRate. exact Hrr.
Qed.

Lemma Release_panics_only_on_zero_rate_witness :
  exists sem : Semaphore unit,
    NewSemaphore 1 (NewBalance 900 1000 0) [] = Ok sem
    /\ PauseFunc sem <> None
    /\ Release 900 Second Second sem = Panic DivideByZero.
Proof.
  eexists. split; [reflexivity |].
  assert (Hpf : PauseFunc
                  (mkSemaphore (U:=unit) (NewBalance 900 1000 0)
                     (Some (fun _ _ u => u)) (Some (fun u => u)) 0
                     DefaultAquireBuffer zeroTime (make_chan 1) false false)
                <> None) by discriminate.
  split; [exact Hpf |].
  apply (proj2 (Release_panics_only_on_zero_rate 900 Second Second _
                  DivideByZero Hpf)).
  repeat split.
Defined.

(** ** What a run keeps *)

Section RunInvariants.

Context {U : Type}.

Lemma same_config_refl (x : Semaphore U) : same_config x x.
Proof. unfold same_config. repeat split. Qed.

Lemma same_config_trans (x y z : Semaphore U) :
  same_config x y -> same_config y z -> same_config x z.
Proof.
  unfold same_config.
  intros (? & ? & ? & ? & ? & ? & ? & ?) (? & ? & ? & ? & ? & ? & ? & ?).
  repeat split; congruence.
Qed.

Lemma chan_recv_cap (c : Chan) : cap (chan_recv c) = cap c.
Proof. unfold chan_recv. destruct (0 <? len c)%nat; reflexivity. Qed.

Lemma step_same_config (ev : Event) (s s' : System U) :
  step ev s = Ok s' -> same_config (sem s') (sem s).
Proof.
  intros Hstep.
  destruct ev as [c | i e | i pick | pts now1 now2 | k]; cbn [step] in Hstep.
  - injection Hstep as <-. apply same_config_refl.
  - destruct (aquirers s !! i); injection Hstep as <-; apply same_config_refl.
  - destruct (aquirers s !! i) as [a |];
      [| injection Hstep as <-; apply same_config_refl].
    destruct (Aquire_step pick a (sem s)) as [a' x'] eqn:Hstep'.
    injection Hstep as <-. cbn [sem].
    destruct (Aquire_step_frame _ _ _ _ _ Hstep')
      as (Hb & Hpf & Hrf & Hpb & Hab & _ & _ & Hcap).
    unfold same_config. rewrite Hb. repeat split; assumption.
  - destruct (mu (sem s)); [injection Hstep as <-; apply same_config_refl |].
    destruct (Release pts now1 now2 (sem s)) as [[x' gs] | p] eqn:HR;
      [| discriminate].
    cbn [bind] in Hstep. injection Hstep as <-. cbn [sem].
    destruct (Release_frame _ _ _ _ _ _ HR) as (Hb & Hpf & Hrf & Hpb & Hab & Hs).
    unfold same_config.
    rewrite Hb, Hs, Update_Threshold, Update_Limit, Update_RefillRate, chan_recv_cap.
    repeat split; assumption.
  - destruct (pending s !! k) as [[fn pts ra | ra] |];
      [| destruct (ResumeFunc (sem s)) eqn:Hrf; [| discriminate] |];
      injection Hstep as <-; unfold same_config; sem_simpl; cbn [sem];
      sem_simpl; repeat split; assumption.
Qed.

Lemma cannot_panic_same_config (x y : Semaphore U) :
  same_config y x -> cannot_panic x -> cannot_panic y.
Proof.
  unfold same_config, cannot_panic.
  intros (_ & _ & Hrr & Hpf & Hrf & _) (? & ? & ?).
  rewrite Hrr, Hpf, Hrf. auto.
Qed.

Lemma step_cannot_panic (ev : Event) (s : System U) :
  cannot_panic (sem s) -> exists s', step ev s = Ok s'.
Proof.
  intros (Hpf & Hrf & Hrr).
  destruct ev as [c | i e | i pick | pts now1 now2 | k]; cbn [step].
  - eauto.
  - destruct (aquirers s !! i); eauto.
  - destruct (aquirers s !! i) as [a |]; [| eauto].
    destruct (Aquire_step pick a (sem s)). eauto.
  - destruct (mu (sem s)); [eauto |].
    destruct (Release_Ok pts now1 now2 (sem s) Hpf Hrr) as (x' & gs & ->).
    cbn [bind]. eauto.
  - destruct (pending s !! k) as [[fn pts ra | ra] |]; [eauto | | eauto].
    destruct (ResumeFunc (sem s)); [eauto | contradiction].
Qed.

Lemma run_cannot_panic (evs : list Event) :
  forall s : System U, cannot_panic (sem s) -> exists s', run evs s = Ok s'.
Proof.
  induction evs as [| ev evs IH]; intros s Hs; cbn [run].
  - eauto.
  - destruct (step_cannot_panic ev s Hs) as (s1 & Hstep). rewrite Hstep.
    cbn [bind]. apply IH.
    eapply cannot_panic_same_config; [| exact Hs].
    eapply step_same_config. exact Hstep.
Qed.





End RunInvariants.

(** X10.  A program on a semaphore built by [NewSemaphore] whose balance
    has a refill rate other than 0 never panics: every sequence of calls of
    [Aquire] and [Release], cancellations and goroutine runs ends in a
    state. *)
Theorem run_never_panics {U : Type} (n : Z) (b : Balance)
    (opts : list (SemaphoreOption U)) (sem0 : Semaphore U) (u : U)
    (evs : list Event) :
  NewSemaphore n b opts = Ok sem0 ->
  RefillRate (balance sem0) <> 0 ->
  exists s, run evs (init sem0 u) = Ok s.
Proof.
  intros Hnew Hrr.
  destruct (NewSemaphore_Ok n b opts (NewSemaphore_inv _ _ _ _ Hnew))
    as (sem' & Hsem' & _ & _ & _ & _ & _ & _ & _ & Hpf & Hrf).
  rewrite Hnew in Hsem'. injection Hsem' as <-.
  apply run_cannot_panic. cbn [init sem]. unfold cannot_panic. auto.
Qed.

Lemma run_never_panics_witness :
  exists (sem0 : Semaphore unit) (s : System unit),
    newSemaphore 1 [] = Ok sem0
    /\ RefillRate (balance sem0) <> 0
    /\ run [ECall Background; EAquire 0 PickSend; EAquire 0 PickSend;
            ERelease (-1) Second Second; EGo 5; ERelease 0 Second Second]
           (init sem0 tt) = Ok s.
Proof.
  eexists.
  assert (Hrr : RefillRate
                  (balance
                     (mkSemaphore (U:=unit) (NewBalance 900 1000 100)
                        (Some (fun _ _ u => u)) (Some (fun u => u)) 0
                        DefaultAquireBuffer zeroTime (make_chan 1) false false))
                <> 0) by discriminate.
  destruct (run_never_panics (U:=unit) 1 (NewBalance 900 1000 100) [] _ tt
              [ECall Background; EAquire 0 PickSend; EAquire 0 PickSend;
               ERelease (-1) Second Second; EGo 5; ERelease 0 Second Second]
              eq_refl Hrr) as (s & Hs).
  exists s. split; [reflexivity | split; [exact Hrr | exact Hs]].
Defined.

(** X11.  No call changes the configuration: after any run the threshold,
    the limit, the refill rate, both callbacks, both buffers and the
    capacity of the channel are those the run started with.  Only the
    remaining points, the pause flag, [pausedAt], the content of the
    channel and the mutex move. *)
Theorem run_keeps_configuration {U : Type} (evs : list Event) (s0 s : System U) :
  run evs s0 = Ok s ->
  Threshold (balance (sem s)) = Threshold (balance (sem s0))
  /\ Limit (balance (sem s)) = Limit (balance (sem s0))
  /\ RefillRate (balance (sem s)) = RefillRate (balance (sem s0))
  /\ PauseFunc (sem s) = PauseFunc (sem s0)
  /\ ResumeFunc (sem s) = ResumeFunc (sem s0)
  /\ PauseBuffer (sem s) = PauseBuffer (sem s0)
  /\ AquireBuffer (sem s) = AquireBuffer (sem s0)
  /\ cap (sema (sem s)) = cap (sema (sem s0)).
Proof.
  change (run evs s0 = Ok s -> same_config (sem s) (sem s0)).
  revert s0 s. induction evs as [| ev evs IH]; intros s0 s Hrun; cbn [run] in Hrun.
  - injection Hrun as <-. apply same_config_refl.
  - destruct (step ev s0) as [s1 | p] eqn:Hstep; [| discriminate].
    cbn [bind] in Hrun.
    eapply same_config_trans; [apply IH; exact Hrun |].
    eapply step_same_config. exact Hstep.
Qed.

Lemma run_keeps_configuration_witness :
  exists s0 s : System unit,
    two_holders = Ok s0
    /\ run [ERelease 100 (50 * Second) (50 * Second); EGo 1;
            ERelease 0 (70 * Second) (70 * Second)] s0 = Ok s
    /\ Remaining (balance (sem s)) = 0
    /\ Threshold (balance (sem s)) = 900
    /\ Limit (balance (sem s)) = 1000
    /\ RefillRate (balance (sem s)) = 100
    /\ AquireBuffer (sem s) = DefaultAquireBuffer.
Proof.
  eexists. eexists.
  split; [vm_compute; reflexivity |].
  match goal with
  | |- run ?evs ?s0 = Ok ?s /\ _ =>
      assert (Hrun : run evs s0 = Ok s) by (vm_compute; reflexivity)
  end.
  split; [exact Hrun |].
  destruct (run_keeps_configuration _ _ _ Hrun)
    as (Ht & Hl & Hr & _ & _ & _ & Hab & _).
  split; [reflexivity |].
  split; [exact Ht | split; [exact Hl | split; [exact Hr | exact Hab]]].
Defined.



(** ** Release: when a pause starts *)

Lemma pauseDuration_sound {U : Type} (pts : Z) (x : Semaphore U) :
  0 < RefillRate (balance x) ->
  0 <= pts -> pts <= Limit (balance x) -> Limit (balance x) <= max_int32 ->
  0 <= PauseBuffer x <= max_int64 - max_int32 * Second ->
  pauseDuration pts x
  = Ok (Z.quot (Limit (balance x) - pts) (RefillRate (balance x)) * Second
        + PauseBuffer x).
Proof.
  intros Hrr Hp0 Hp Hl Hpb.
  assert (Hrem : Remaining (Update pts (balance x)) = pts).
  { rewrite Update_Remaining. unfold ErrPts.
    destruct (pts >? -1) eqn:E; [reflexivity | lia]. }
  unfold pauseDuration.
  rewrite RefillDuration_no_wrap;
    rewrite ?Update_RefillRate, ?Update_Limit, ?Hrem; [| exact Hrr |].
  - cbn [bind]. unfold add64. rewrite wrap64_id; [reflexivity |].
    pose proof (quot_pos_bounds (Limit (balance x) - pts) (RefillRate (balance x)) Hrr).
    unfold is_int64, min_int64. unfold max_int64, max_int32, Second in *. lia.
  - unfold is_int32, min_int32. unfold max_int32 in *. lia.
Qed.

(** X13.  The threshold trigger.  On a semaphore with a positive refill
    rate and a threshold not above the limit, [Release pts] with
    [0 <= pts <= Threshold] computes the pause [(Limit - pts) / RefillRate]
    seconds plus the pause buffer.  If the clock is past [pausedAt] plus
    that pause, the call sets the pause flag, sets [pausedAt] to the clock
    and starts the pause callback on [pts] and that duration, and the
    resume goroutine; otherwise it starts nothing and leaves the flag and
    [pausedAt] alone.  Either way the remaining points become [pts]. *)
Theorem Release_threshold_trigger {U : Type} (pts : Z) (now1 now2 : Time)
    (x : Semaphore U) (fn : PauseFn U) :
  PauseFunc x = Some fn ->
  0 < RefillRate (balance x) ->
  0 <= pts -> pts <= Threshold (balance x) ->
  Threshold (balance x) <= Limit (balance x) ->
  Limit (balance x) <= max_int32 ->
  0 <= PauseBuffer x <= max_int64 - max_int32 * Second ->
  (pausedAt x
   + (Z.quot (Limit (balance x) - pts) (RefillRate (balance x)) * Second
      + PauseBuffer x) < now1 ->
   exists x',
     Release pts now1 now2 x
     = Ok (x', [GoPauseFunc fn pts
                  (Z.quot (Limit (balance x) - pts) (RefillRate (balance x)) * Second
                   + PauseBuffer x);
                GoResume
                  (Z.quot (Limit (balance x) - pts) (RefillRate (balance x)) * Second
                   + PauseBuffer x)])
     /\ paused x' = true /\ pausedAt x' = now2
     /\ Remaining (balance x') = pts)
  /\ (now1 <= pausedAt x
              + (Z.quot (Limit (balance x) - pts) (RefillRate (balance x)) * Second
                 + PauseBuffer x) ->
      exists x',
        Release pts now1 now2 x = Ok (x', [])
        /\ paused x' = paused x /\ pausedAt x' = pausedAt x
        /\ Remaining (balance x') = pts).
Proof.
  intros Hfn Hrr Hp0 Hpt Htl Hl Hpb.
  assert (Hra := pauseDuration_sound pts x Hrr Hp0 ltac:(lia) Hl Hpb).
  assert (Hrem : Remaining (Update pts (balance x)) = pts).
  { rewrite Update_Remaining. unfold ErrPts.
    destruct (pts >? -1) eqn:E; [reflexivity | lia]. }
  assert (Hat : AtThreshold (Update pts (balance x)) = true).
  { unfold AtThreshold. rewrite Hrem, Update_Threshold. apply Z.leb_le. exact Hpt. }
  assert (Hcu : cooldownUntil pts x
                = Ok (pausedAt x
                      + (Z.quot (Limit (balance x) - pts) (RefillRate (balance x))
                         * Second + PauseBuffer x))).
  { unfold cooldownUntil. rewrite Hra. reflexivity. }
  split; intros Hnow.
  - eexists. split; [eapply Release_arms; eassumption |].
    match goal with
    | |- context [receive ?y] =>
        destruct (receive_fields y) as (-> & _ & _ & _ & _ & -> & -> & _)
    end.
    sem_simpl. auto.
  - eexists. split; [eapply Release_cooling; eassumption |].
    match goal with
    | |- context [receive ?y] =>
        destruct (receive_fields y) as (-> & _ & _ & _ & _ & -> & -> & _)
    end.
    sem_simpl. auto.
Qed.

Lemma Release_threshold_trigger_witness :
  exists (sem0 x' : Semaphore unit),
    NewSemaphore 1 (NewBalance 100 1000 100) [WithPauseBuffer (1 * Second)] = Ok sem0
    /\ Release 100 (50 * Second) (50 * Second) sem0
       = Ok (x', [GoPauseFunc (fun _ _ u => u) 100 (10 * Second);
                  GoResume (10 * Second)])
    /\ paused x' = true /\ pausedAt x' = 50 * Second
    /\ Remaining (balance x') = 100.
Proof.
  eexists.
  destruct (Release_threshold_trigger (U:=unit) 100 (50 * Second) (50 * Second)
              (mkSemaphore (NewBalance 100 1000 100)
                 (Some (fun _ _ u => u)) (Some (fun u => u)) (1 * Second)
                 DefaultAquireBuffer zeroTime (make_chan 1) false false)
              (fun _ _ u => u) eq_refl)
    as (Harm & _);
    [vm_compute; reflexivity | vm_compute; discriminate | vm_compute; discriminate
    | vm_compute; discriminate | vm_compute; discriminate
    | vm_compute; split; discriminate |].
  destruct (Harm ltac:(vm_compute; reflexivity)) as (x' & HR & Hp & Hpa & Hrem).
  exists x'. split; [reflexivity |].
  split; [exact HR |]. auto.
Defined.

(** X14.  [Release] with the error value leaves the balance as it was, and
    judges the threshold on that stored balance: it still starts a pause
    when the stored balance is at the threshold and the cooldown instant
    is past, and the pause callback is then given the error value itself,
    not the stored points. *)
Theorem Release_error_value {U : Type} (now1 now2 : Time) (x x' : Semaphore U)
    (gs : list (Goroutine U)) :
  Release ErrPts now1 now2 x = Ok (x', gs) ->
  balance x' = balance x
  /\ (gs <> [] <->
      AtThreshold (balance x) = true
      /\ exists cu, cooldownUntil ErrPts x = Ok cu /\ cu < now1)
  /\ (gs <> [] ->
      exists fn ra, PauseFunc x = Some fn
        /\ gs = [GoPauseFunc fn ErrPts ra; GoResume ra]).
Proof.
  intros HR.
  assert (Hupd : Update ErrPts (balance x) = balance x) by reflexivity.
  split; [| split].
  - destruct (Release_frame _ _ _ _ _ _ HR) as (Hb & _). rewrite Hb. exact Hupd.
  - rewrite <- Hupd at 1. apply (Release_arms_iff _ _ _ _ _ _ HR).
  - intros Hgs.
    destruct (Release_cases _ _ _ _ _ _ HR)
      as [? | ? ? ? ? | cu ra fn Hat Hra Hcu Hnow Hfn];
      [contradiction | contradiction |].
    exists fn, ra. auto.
Qed.

Lemma Release_error_value_witness :
  exists s0 s1 s2 : System unit,
    two_holders = Ok s0
    /\ step (ERelease 100 (50 * Second) (50 * Second)) s0 = Ok s1
    /\ step (ERelease ErrPts (70 * Second) (70 * Second)) s1 = Ok s2
    /\ Remaining (balance (sem s2)) = 100
    /\ pending s2
       = pending s1 ++ [GoPauseFunc (fun _ _ u => u) ErrPts (9 * Second);
                        GoResume (9 * Second)].
Proof.
  eexists. eexists. eexists.
  split; [vm_compute; reflexivity |].
  split; [vm_compute; reflexivity |].
  match goal with
  | |- step (ERelease _ ?n1 ?n2) ?s1 = Ok ?s2 /\ _ =>
      assert (HR : exists x' gs, Release ErrPts n1 n2 (sem s1) = Ok (x', gs)
                                 /\ gs <> [])
  end.
  { eexists. eexists. split; [vm_compute; reflexivity | discriminate]. }
  destruct HR as (x' & gs & HR & Hgs).
  destruct (Release_error_value _ _ _ _ _ HR) as (Hb & _ & Harm).
  destruct (Harm Hgs) as (fn & ra & Hfn & Hgs').
  split; [vm_compute; reflexivity |].
  split; reflexivity.
Defined.

(** ** Aquire and Release together *)

Section RoundTrip.

Context {U : Type}.

Lemma chan_recv_send (c : Chan) :
  recvq c = 0%nat -> chan_recv (chan_send c) = c.
Proof.
  intros Hq. unfold chan_send. rewrite Hq. cbn.
  destruct c as [l k q]. cbn in *. subst q. reflexivity.
Qed.

Lemma Aquire_takes_free_slot (p1 p2 : Pick) (x : Semaphore U) :
  paused x = false ->
  recvq (sema x) = 0%nat ->
  (len (sema x) < cap (sema x))%nat ->
  Aquire Background [p1; p2] x
  = ({| ctx := Background; pc := Returned None; waits := [] |},
     set_sema (chan_send (sema x)) x).
Proof.
  intros Hp Hq Hlen. unfold Aquire, new_call. cbn [Aquire_steps].
  rewrite Aquire_step_unpaused by (reflexivity || exact Hp). cbn [ctx waits].
  unfold Aquire_step. cbn [pc ctx waits]. unfold select, Background, can_send.
  rewrite Hq. apply Nat.ltb_lt in Hlen. rewrite Hlen. reflexivity.
Qed.


End RoundTrip.

(** X15.  Round trip.  On a semaphore that is not paused and has a free
    slot, a call of [Aquire] with a context that is never done returns nil
    without sleeping and the channel holds one element more; a [Release]
    that reports points above the threshold then returns with the channel
    as it was before the call of [Aquire], the mutex free, the pause flag
    and [pausedAt] untouched and no goroutine started. *)
Theorem Aquire_Release_round_trip {U : Type} (x : Semaphore U) (p1 p2 : Pick)
    (pts : Z) (now1 now2 : Time) :
  paused x = false ->
  recvq (sema x) = 0%nat ->
  (len (sema x) < cap (sema x))%nat ->
  AtThreshold (Update pts (balance x)) = false ->
  exists x1 x2,
    Aquire Background [p1; p2] x
    = ({| ctx := Background; pc := Returned None; waits := [] |}, x1)
    /\ len (sema x1) = S (len (sema x))
    /\ Release pts now1 now2 x1 = Ok (x2, [])
    /\ sema x2 = sema x /\ mu x2 = false
    /\ paused x2 = false /\ pausedAt x2 = pausedAt x
    /\ balance x2 = Update pts (balance x).
Proof.
  intros Hp Hq Hlen Hat.
  eexists. eexists.
  split; [apply Aquire_takes_free_slot; assumption |].
  assert (Hsend : len (chan_send (sema x)) = S (len (sema x))).
  { unfold chan_send. rewrite Hq. reflexivity. }
  split; [exact Hsend |].
  split; [apply Release_above_threshold; exact Hat |].
  unfold receive. sem_simpl. rewrite Hsend. cbn [Nat.eqb]. sem_simpl.
  rewrite chan_recv_send by exact Hq. auto.
Qed.

Lemma Aquire_Release_round_trip_witness :
  exists sem0 x1 x2 : Semaphore unit,
    newSemaphore 1 [] = Ok sem0
    /\ Aquire Background [PickSend; PickSend] sem0
       = ({| ctx := Background; pc := Returned None; waits := [] |}, x1)
    /\ Release 1000 (50 * Second) (50 * Second) x1 = Ok (x2, [])
    /\ sema x2 = sema sem0 /\ mu x2 = false.
Proof.
  eexists.
  destruct (Aquire_Release_round_trip (U:=unit)
              (mkSemaphore (NewBalance 900 1000 100)
                 (Some (fun _ _ u => u)) (Some (fun u => u)) 0
                 DefaultAquireBuffer zeroTime (make_chan 1) false false)
              PickSend PickSend 1000 (50 * Second) (50 * Second)
              eq_refl eq_refl ltac:(cbn; lia) eq_refl)
    as (x1 & x2 & Ha & _ & HR & Hs & Hmu & _).
  exists x1, x2. split; [reflexivity |]. auto.
Defined.



(** ** The pause flag *)

Section PauseFlag.

Context {U : Type}.

Lemma Release_keeps_paused (pts : Z) (now1 now2 : Time) (x x' : Semaphore U)
    (gs : list (Goroutine U)) :
  Release pts now1 now2 x = Ok (x', gs) ->
  paused x = true -> paused x' = true.
Proof.
  intros HR Hp.
  destruct (Release_cases _ _ _ _ _ _ HR);
    match goal with
    | |- context [receive ?y] =>
        destruct (receive_fields y) as (_ & _ & _ & _ & _ & _ & -> & _)
    end; sem_simpl; auto.
Qed.

Lemma step_paused_blocks (ev : Event) (s s' : System U) (i : nat) (a : Aquirer) :
  not_go ev ->
  paused (sem s) = true ->
  aquirers s !! i = Some a -> pc a = PauseCheck ->
  step ev s = Ok s' ->
  paused (sem s') = true
  /\ exists a', aquirers s' !! i = Some a' /\ pc a' = PauseCheck.
Proof.
  intros Hev Hp Hi Hpc Hstep.
  assert (Hlt : (i < length (aquirers s))%nat) by (eapply lookup_lt_Some; eassumption).
  destruct ev as [c | j e | j pick | pts now1 now2 | k]; cbn [step] in Hstep.
  - injection Hstep as <-. cbn [sem aquirers]. split; [exact Hp |].
    exists a. split; [| exact Hpc]. rewrite lookup_app_l by exact Hlt. exact Hi.
  - destruct (aquirers s !! j) as [b |] eqn:Hj; injection Hstep as <-;
      cbn [sem aquirers]; (split; [exact Hp |]); [| eauto].
    destruct (decide (j = i)) as [-> | Hne].
    + rewrite list_lookup_insert_eq by exact Hlt.
      eexists. split; [reflexivity |].
      rewrite Hi in Hj. injection Hj as <-. destruct (ctx a); exact Hpc.
    + rewrite list_lookup_insert_ne by exact Hne. eauto.
  - destruct (aquirers s !! j) as [b |] eqn:Hj;
      [| injection Hstep as <-; eauto].
    destruct (Aquire_step pick b (sem s)) as [b' x'] eqn:Hstep'.
    injection Hstep as <-. cbn [sem aquirers].
    destruct (Aquire_step_frame _ _ _ _ _ Hstep') as (_ & _ & _ & _ & _ & _ & Hp' & _).
    split; [rewrite Hp'; exact Hp |].
    destruct (decide (j = i)) as [-> | Hne].
    + rewrite list_lookup_insert_eq by exact Hlt.
      rewrite Hi in Hj. injection Hj as <-.
      rewrite (Aquire_step_paused pick a (sem s) Hpc Hp) in Hstep'.
      injection Hstep' as <- <-. eauto.
    + rewrite list_lookup_insert_ne by exact Hne. eauto.
  - destruct (mu (sem s)); [injection Hstep as <-; eauto |].
    destruct (Release pts now1 now2 (sem s)) as [[x' gs] | p] eqn:HR;
      [| discriminate].
    cbn [bind] in Hstep. injection Hstep as <-. cbn [sem aquirers].
    split; [eapply Release_keeps_paused; eassumption | eauto].
  - contradiction.
Qed.

Lemma blocked_releases (rels : list Event) :
  forall s : System U,
    Forall is_release rels -> mu (sem s) = true -> run rels s = Ok s.
Proof.
  induction rels as [| ev rels IH]; intros s Hrels Hmu; cbn [run].
  - reflexivity.
  - apply Forall_cons in Hrels. destruct Hrels as (Hev & Hrels).
    destruct ev; try contradiction. cbn [step]. rewrite Hmu. cbn [bind].
    apply IH; assumption.
Qed.

End PauseFlag.

(** X17.  Only a resume goroutine ends a pause.  While the pause flag is
    set, whatever calls of [Aquire] and [Release] and cancellations happen,
    as long as no goroutine started by [Release] runs, the flag stays set
    and a call of [Aquire] that is at its pause check stays there: it does
    not return, not even when its context is cancelled. *)
Theorem pause_blocks_until_resume {U : Type} (evs : list Event) (s s' : System U)
    (i : nat) (a : Aquirer) :
  Forall not_go evs ->
  paused (sem s) = true ->
  aquirers s !! i = Some a ->
  pc a = PauseCheck ->
  run evs s = Ok s' ->
  paused (sem s') = true
  /\ exists a', aquirers s' !! i = Some a' /\ pc a' = PauseCheck.
Proof.
  revert s s' a. induction evs as [| ev evs IH]; intros s s' a Hevs Hp Hi Hpc Hrun;
    cbn [run] in Hrun.
  - injection Hrun as <-. eauto.
  - destruct (step ev s) as [s1 | p] eqn:Hstep; [| discriminate].
    cbn [bind] in Hrun.
    apply Forall_cons in Hevs. destruct Hevs as (Hev & Hevs).
    destruct (step_paused_blocks ev s s1 i a Hev Hp Hi Hpc Hstep)
      as (Hp1 & a1 & Hi1 & Hpc1).
    eapply IH; eassumption.
Qed.

Lemma pause_blocks_until_resume_witness :
  exists s s' : System unit,
    paused_then_call = Ok s
    /\ Forall not_go [ECancel 1 Canceled; EAquire 1 PickDone;
                      ERelease 1000 (51 * Second) (51 * Second);
                      EAquire 1 PickDone]
    /\ paused (sem s) = true
    /\ run [ECancel 1 Canceled; EAquire 1 PickDone;
            ERelease 1000 (51 * Second) (51 * Second);
            EAquire 1 PickDone] s = Ok s'
    /\ paused (sem s') = true
    /\ exists a', aquirers s' !! 1%nat = Some a' /\ pc a' = PauseCheck.
Proof.
  eexists. eexists.
  split; [vm_compute; reflexivity |].
  assert (Hevs : Forall not_go [ECancel 1 Canceled; EAquire 1 PickDone;
                                ERelease 1000 (51 * Second) (51 * Second);
                                EAquire 1 PickDone]).
  { repeat constructor. }
  split; [exact Hevs |].
  split; [reflexivity |].
  match goal with
  | |- run ?evs ?s = Ok ?s' /\ _ =>
      assert (Hrun : run evs s = Ok s') by (vm_compute; reflexivity)
  end.
  split; [exact Hrun |].
  refine (pause_blocks_until_resume _ _ _ 1
            {| ctx := Background; pc := PauseCheck; waits := [Spin; Spin; Spin] |}
            Hevs _ _ _ Hrun); reflexivity.
Defined.

(** X18.  [Release] with no slot held.  When the channel is empty the call
    has already updated the balance, then parks on the receive while it
    still holds the mutex, and does not return.  From then on every other
    call of [Release] is stuck at the lock: no sequence of [Release] calls
    changes anything, not even the balance. *)
Theorem Release_without_slot_blocks {U : Type} (s s1 : System U) (pts : Z)
    (now1 now2 : Time) :
  mu (sem s) = false ->
  len (sema (sem s)) = 0%nat ->
  step (ERelease pts now1 now2) s = Ok s1 ->
  mu (sem s1) = true
  /\ recvq (sema (sem s1)) = S (recvq (sema (sem s)))
  /\ len (sema (sem s1)) = 0%nat
  /\ released s1 = released s
  /\ balance (sem s1) = Update pts (balance (sem s))
  /\ (forall rels, Forall is_release rels -> run rels s1 = Ok s1).
Proof.
  intros Hmu Hlen Hstep.
  rewrite step_Release in Hstep by exact Hmu.
  destruct (Release pts now1 now2 (sem s)) as [[x' gs] | p] eqn:HR;
    [| discriminate].
  cbn [bind] in Hstep. injection Hstep as <-. cbn [sem released].
  pose proof (Release_mu _ _ _ _ _ _ HR) as Hmu'. rewrite Hlen in Hmu'.
  cbn in Hmu'.
  destruct (Release_frame _ _ _ _ _ _ HR) as (Hb & _ & _ & _ & _ & Hs).
  rewrite Hmu', Hs, Hb. unfold chan_recv. rewrite Hlen. cbn.
  repeat split; try reflexivity; try exact Hlen.
  intros rels Hrels. apply blocked_releases; [exact Hrels | exact Hmu'].
Qed.

Lemma Release_without_slot_blocks_witness :
  exists (sem0 : Semaphore unit) (s1 : System unit),
    newSemaphore 1 [] = Ok sem0
    /\ mu (sem (init sem0 tt)) = false
    /\ len (sema (sem (init sem0 tt))) = 0%nat
    /\ step (ERelease 950 (50 * Second) (50 * Second)) (init sem0 tt) = Ok s1
    /\ mu (sem s1) = true
    /\ Remaining (balance (sem s1)) = 950
    /\ run [ERelease 0 (60 * Second) (60 * Second);
            ERelease 500 (70 * Second) (70 * Second)] s1 = Ok s1.
Proof.
  eexists. eexists.
  split; [reflexivity |]. split; [reflexivity |]. split; [reflexivity |].
  match goal with
  | |- step ?ev ?s = Ok ?s1 /\ _ =>
      assert (Hstep : step ev s = Ok s1) by (vm_compute; reflexivity)
  end.
  split; [exact Hstep |].
  pose proof (fun H1 H2 => Release_without_slot_blocks _ _ _ _ _ H1 H2 Hstep)
    as Hthm.
  destruct (Hthm eq_refl eq_refl) as (Hmu & _ & _ & _ & _ & Hblock).
  split; [exact Hmu |]. split; [reflexivity |].
  apply Hblock. repeat constructor.
Defined.

(** ** Pauses and resumes come in pairs *)

Section Pairs.

Context {U : Type}.

Lemma list_sum_delete {A : Type} (f : A -> nat) (l : list A) :
  forall (k : nat) (x : A),
    l !! k = Some x ->
    (list_sum (map f (delete k l)) + f x = list_sum (map f l))%nat.
Proof.
  induction l as [| y l IH]; intros k x Hk; [discriminate |].
  destruct k as [| k]; cbn in Hk.
  - injection Hk as ->. simpl. unfold list_sum. simpl. lia.
  - specialize (IH k x Hk). simpl. unfold list_sum in *. simpl. lia.
Qed.

Lemma list_sum_snoc {A : Type} (f : A -> nat) (l : list A) (x : A) :
  list_sum (map f (l ++ [x])) = (list_sum (map f l) + f x)%nat.
Proof.
  rewrite map_app, list_sum_app. cbn [map list_sum fold_right]. lia.
Qed.

Lemma step_pairs (ev : Event) (s s' : System U) :
  step ev s = Ok s' ->
  (pauses_started s' - pauses_started s = resumes_started s' - resumes_started s
   /\ pauses_started s <= pauses_started s'
   /\ resumes_started s <= resumes_started s')%nat.
Proof.
  intros Hstep. unfold pauses_started, resumes_started.
  destruct ev as [c | i e | i pick | pts now1 now2 | k]; cbn [step] in Hstep.
  - injection Hstep as <-. cbn [pending calls]. lia.
  - destruct (aquirers s !! i); injection Hstep as <-; cbn [pending calls]; lia.
  - destruct (aquirers s !! i) as [a |]; [| injection Hstep as <-; lia].
    destruct (Aquire_step pick a (sem s)). injection Hstep as <-.
    cbn [pending calls]. lia.
  - destruct (mu (sem s)); [injection Hstep as <-; lia |].
    destruct (Release pts now1 now2 (sem s)) as [[x' gs] | p] eqn:HR;
      [| discriminate].
    cbn [bind] in Hstep. injection Hstep as <-. cbn [pending calls].
    rewrite !map_app, !list_sum_app.
    destruct (Release_cases _ _ _ _ _ _ HR);
      cbn [map is_pause_go is_resume_go]; unfold list_sum; cbn [fold_right]; lia.
  - destruct (pending s !! k) as [[fn pts ra | ra] |] eqn:Hk.
    + injection Hstep as <-. cbn [pending calls].
      rewrite !list_sum_snoc.
      pose proof (list_sum_delete is_pause_go _ _ _ Hk) as H1.
      pose proof (list_sum_delete is_resume_go _ _ _ Hk) as H2.
      cbn [is_pause_go is_resume_go is_pause_call is_resume_call] in *. lia.
    + destruct (ResumeFunc (sem s)); [| discriminate].
      injection Hstep as <-. cbn [pending calls].
      rewrite !list_sum_snoc.
      pose proof (list_sum_delete is_pause_go _ _ _ Hk) as H1.
      pose proof (list_sum_delete is_resume_go _ _ _ Hk) as H2.
      cbn [is_pause_go is_resume_go is_pause_call is_resume_call] in *. lia.
    + injection Hstep as <-. lia.
Qed.

Lemma run_pairs (evs : list Event) :
  forall s s' : System U,
    pauses_started s = resumes_started s ->
    run evs s = Ok s' ->
    pauses_started s' = resumes_started s'.
Proof.
  induction evs as [| ev evs IH]; intros s s' Heq Hrun; cbn [run] in Hrun.
  - injection Hrun as <-. exact Heq.
  - destruct (step ev s) as [s1 | p] eqn:Hstep; [| discriminate].
    cbn [bind] in Hrun. eapply IH; [| exact Hrun].
    pose proof (step_pairs _ _ _ Hstep). lia.
Qed.

End Pairs.

(** X19.  Pauses and resumes come in pairs.  In any run from a fresh
    semaphore, the pauses started (pause callbacks called or still to run)
    are as many as the resumes started (resume callbacks called or still
    to run); so once no goroutine is pending, the pause callback and the
    resume callback have been called the same number of times. *)
Theorem pauses_and_resumes_pair {U : Type} (sem0 : Semaphore U) (u : U)
    (evs : list Event) (s : System U) :
  run evs (init sem0 u) = Ok s ->
  pauses_started s = resumes_started s
  /\ (pending s = [] ->
      list_sum (map is_pause_call (calls s))
      = list_sum (map is_resume_call (calls s))).
Proof.
  intros Hrun.
  assert (Heq : pauses_started s = resumes_started s).
  { eapply run_pairs; [| exact Hrun]. reflexivity. }
  split; [exact Heq |].
  intros Hnil. unfold pauses_started, resumes_started in Heq.
  rewrite Hnil in Heq. cbn in Heq. exact Heq.
Qed.

Lemma pauses_and_resumes_pair_witness :
  exists (sem0 : Semaphore unit) (s : System unit),
    newSemaphore 2 [] = Ok sem0
    /\ run [ECall Background; EAquire 0 PickSend; EAquire 0 PickSend;
            ECall Background; EAquire 1 PickSend; EAquire 1 PickSend;
            ERelease 900 (50 * Second) (50 * Second); EGo 1;
            ERelease 100 (60 * Second) (60 * Second); EGo 0]
           (init sem0 tt) = Ok s
    /\ pauses_started s = 2%nat
    /\ pauses_started s = resumes_started s.
Proof.
  eexists. eexists.
  split; [reflexivity |].
  match goal with
  | |- run ?evs ?s0 = Ok ?s /\ _ =>
      assert (Hrun : run evs s0 = Ok s) by (vm_compute; reflexivity)
  end.
  split; [exact Hrun |]. split; [reflexivity |].
  exact (proj1 (pauses_and_resumes_pair _ _ _ _ Hrun)).
Defined.

(** X20.  A [Release] that returns always frees a slot when one is held,
    whether it started a pause or not: the channel holds one element less,
    no receiver is left parked by the call and the mutex is free again. *)
Theorem Release_frees_slot {U : Type} (pts : Z) (now1 now2 : Time)
    (x x' : Semaphore U) (gs : list (Goroutine U)) :
  Release pts now1 now2 x = Ok (x', gs) ->
  (0 < len (sema x))%nat ->
  S (len (sema x')) = len (sema x)
  /\ recvq (sema x') = recvq (sema x)
  /\ cap (sema x') = cap (sema x)
  /\ mu x' = false.
Proof.
  intros HR Hlen.
  pose proof (Release_mu _ _ _ _ _ _ HR) as Hmu.
  destruct (Release_frame _ _ _ _ _ _ HR) as (_ & _ & _ & _ & _ & Hs).
  rewrite Hmu, Hs. unfold chan_recv.
  destruct (len (sema x)) as [| l] eqn:El; [lia |]. cbn. auto.
Qed.

Lemma Release_frees_slot_witness :
  exists (s0 : System unit) (x' : Semaphore unit) (gs : list (Goroutine unit)),
    two_holders = Ok s0
    /\ Release 900 (50 * Second) (50 * Second) (sem s0) = Ok (x', gs)
    /\ (0 < len (sema (sem s0)))%nat
    /\ gs <> []
    /\ S (len (sema x')) = len (sema (sem s0))
    /\ mu x' = false.
Proof.
  eexists. eexists. eexists.
  split; [vm_compute; reflexivity |].
  match goal with
  | |- ?R = Ok (?x', ?gs) /\ _ =>
      assert (HR : R = Ok (x', gs)) by (vm_compute; reflexivity)
  end.
  split; [exact HR |].
  match goal with
  | |- ?P /\ _ => assert (Hlen : P) by (cbn; lia)
  end.
  split; [exact Hlen |]. split; [discriminate |].
  destruct (Release_frees_slot _ _ _ _ _ _ HR Hlen) as (Hl & _ & _ & Hmu).
  split; [exact Hl | exact Hmu].
Defined.
